(** * Quiz game: shared scoring, lobby, validation and utility helpers

    A shallow embedding of the pure helpers of [shared/constants.js]
    (constants, game helpers, utilities) and of the Zod schemas of
    [shared/errors.js], together with the properties the specification
    states about them.

    Modelling conventions.
    - A JavaScript [number] is an exact rational, or one of [Infinity],
      [-Infinity], [NaN].  Rounding of IEEE doubles and the sign of zero are
      not modelled: every finite operation is exact.
    - [Math.random()] is an explicit source of draws that is threaded
      through the functions that call it.
    - An array is a [list]; reading past its end gives [undefined], which is
      [None] of an [option]. *)

From Stdlib Require Import QArith Qround Qminmax ZArith Lia Lqa Bool List.
From Stdlib Require Import Ascii String DecimalString Permutation Sorted.
Import ListNotations.

Set Implicit Arguments.

(* ================================================================== *)
(** * JavaScript numbers *)
(* ================================================================== *)

Module Num.

Inductive number : Type :=
| Fin (q : Q)
| PosInf
| NegInf
| NaN.

Definition zero : number := Fin 0.
Definition one : number := Fin 1.
Definition ofZ (z : Z) : number := Fin (inject_Z z).
Definition ofNat (n : nat) : number := ofZ (Z.of_nat n).

(** Numeric equality of two numbers as values: rationals are compared
    by [Qeq], so [Fin (1#2)] and [Fin (2#4)] are the same number. *)
Definition num_eq (a b : number) : Prop :=
  match a, b with
  | Fin x, Fin y => x == y
  | PosInf, PosInf | NegInf, NegInf | NaN, NaN => True
  | _, _ => False
  end.

(** Unary minus. *)
Definition neg (a : number) : number :=
  match a with
  | Fin x => Fin (- x)
  | PosInf => NegInf
  | NegInf => PosInf
  | NaN => NaN
  end.

(** [a + b] *)
Definition add (a b : number) : number :=
  match a, b with
  | NaN, _ | _, NaN => NaN
  | Fin x, Fin y => Fin (x + y)
  | PosInf, NegInf | NegInf, PosInf => NaN
  | PosInf, _ | _, PosInf => PosInf
  | NegInf, _ | _, NegInf => NegInf
  end.

(** [a - b] *)
Definition sub (a b : number) : number := add a (neg b).

(** Sign of an infinite product or quotient. *)
Definition signed_inf (c : comparison) : number :=
  match c with
  | Gt => PosInf
  | Lt => NegInf
  | Eq => NaN
  end.

Definition flip (c : comparison) : comparison := CompOpp c.

(** [a * b] *)
Definition mul (a b : number) : number :=
  match a, b with
  | NaN, _ | _, NaN => NaN
  | Fin x, Fin y => Fin (x * y)
  | PosInf, Fin y | Fin y, PosInf => signed_inf (y ?= 0)
  | NegInf, Fin y | Fin y, NegInf => signed_inf (flip (y ?= 0))
  | PosInf, PosInf | NegInf, NegInf => PosInf
  | PosInf, NegInf | NegInf, PosInf => NegInf
  end.

(** [a / b]; the zero divisor is the positive zero. *)
Definition div (a b : number) : number :=
  match a, b with
  | NaN, _ | _, NaN => NaN
  | Fin x, Fin y =>
      if Qeq_bool y 0 then signed_inf (x ?= 0) else Fin (x / y)
  | Fin _, PosInf | Fin _, NegInf => Fin 0
  | PosInf, Fin y => if Qle_bool 0 y then PosInf else NegInf
  | NegInf, Fin y => if Qle_bool 0 y then NegInf else PosInf
  | _, _ => NaN
  end.

(** [a < b]; false as soon as one side is [NaN]. *)
Definition ltb (a b : number) : bool :=
  match a, b with
  | NaN, _ | _, NaN => false
  | Fin x, Fin y => negb (Qle_bool y x)
  | _, NegInf | PosInf, _ => false
  | NegInf, _ | _, PosInf => true
  end.

(** [a <= b] *)
Definition leb (a b : number) : bool :=
  match a, b with
  | NaN, _ | _, NaN => false
  | Fin x, Fin y => Qle_bool x y
  | NegInf, _ | _, PosInf => true
  | PosInf, _ | _, NegInf => false
  end.

(** [a > b] and [a >= b] *)
Definition gtb (a b : number) : bool := ltb b a.
Definition geb (a b : number) : bool := leb b a.

(** [a === b] on two numbers: [NaN] is different from itself. *)
Definition strict_eqb (a b : number) : bool :=
  match a, b with
  | Fin x, Fin y => Qeq_bool x y
  | PosInf, PosInf | NegInf, NegInf => true
  | _, _ => false
  end.

(** [Math.max(a, b)] *)
Definition Math_max (a b : number) : number :=
  match a, b with
  | NaN, _ | _, NaN => NaN
  | _, _ => if leb a b then b else a
  end.

(** [Math.min(a, b)] *)
Definition Math_min (a b : number) : number :=
  match a, b with
  | NaN, _ | _, NaN => NaN
  | _, _ => if leb a b then a else b
  end.

(** [Math.floor(a)] *)
Definition Math_floor (a : number) : number :=
  match a with
  | Fin x => Fin (inject_Z (Qfloor x))
  | _ => a
  end.

(** [Number.isInteger(a)] *)
Definition isInteger (a : number) : bool :=
  match a with
  | Fin x => Qeq_bool x (inject_Z (Qfloor x))
  | _ => false
  end.

(** [Number.isNaN(a)] *)
Definition isNaN (a : number) : bool :=
  match a with
  | NaN => true
  | _ => false
  end.

End Num.

Import Num.
Declare Scope js_scope.
Delimit Scope js_scope with js.
Infix "+" := add : js_scope.
Infix "-" := sub : js_scope.
Infix "*" := mul : js_scope.
Infix "/" := div : js_scope.
Infix "<" := ltb : js_scope.
Infix "<=" := leb : js_scope.
Infix ">" := gtb : js_scope.
Infix ">=" := geb : js_scope.
Infix "===" := strict_eqb (at level 70, no associativity) : js_scope.
Infix "=n=" := num_eq (at level 70, no associativity).

(* ================================================================== *)
(** * [Math.random] *)
(* ================================================================== *)

Module Random.

(** The source of randomness: the values the successive calls of
    [Math.random()] return. *)
Definition source : Type := nat -> Q.

(** A computation that may call [Math.random()]. *)
Definition Rand (A : Type) : Type := source -> A * source.

Definition ret {A} (a : A) : Rand A := fun s => (a, s).

Definition bind {A B} (m : Rand A) (k : A -> Rand B) : Rand B :=
  fun s => let (a, s') := m s in k a s'.

(** [Math.random()]: the next draw. *)
Definition Math_random : Rand number :=
  fun s => (Fin (s 0%nat), fun n => s (S n)).

(** The contract of [Math.random()]: every draw is in [[0, 1)]. *)
Definition fair (s : source) : Prop := forall n, 0 <= s n /\ s n < 1.

(** A source given by its first draws, then zero. *)
Definition draws (l : list Q) : source := fun n => nth n l 0.

Definition run {A} (m : Rand A) (s : source) : A := fst (m s).

End Random.

Import Random.
Notation "x <- m ;; k" := (bind m (fun x => k))
  (at level 61, m at next level, right associativity).

(* ================================================================== *)
(** * shared/constants.js: game configuration *)
(* ================================================================== *)

Module Constants.

Definition MAX_PLAYERS_PER_LOBBY : number := ofZ 8.
Definition MIN_PLAYERS_TO_START : number := ofZ 2.
Definition MIN_TIME_PER_QUESTION : number := ofZ 5.
Definition MAX_TIME_PER_QUESTION : number := ofZ 120.

Definition BASE_POINTS_CORRECT : number := ofZ 100.
Definition POINTS_INCORRECT : number := ofZ 0.
Definition MAX_SPEED_BONUS : number := ofZ 50.
Definition STREAK_MULTIPLIER : number := Fin (11 # 10).
Definition MAX_STREAK_MULTIPLIER : number := Fin 2.

Definition QUESTION_CATEGORIES : list string :=
  [ "general-knowledge"; "science"; "history"; "geography"; "sports";
    "entertainment"; "arts-literature"; "technology"; "nature";
    "mythology" ]%string.

Definition DIFFICULTY_LEVELS : list string :=
  [ "easy"; "medium"; "hard" ]%string.

End Constants.

Import Constants.

(* ================================================================== *)
(** * Game-specific utilities: scoring *)
(* ================================================================== *)

Module Scoring.

(** [calculateScore(basePoints, responseTime, timeLimit, maxSpeedBonus)] *)
Definition calculateScore
    (basePoints responseTime timeLimit maxSpeedBonus : number) : number :=
  let speedRatio :=
    Math_max (Fin 0) ((timeLimit - responseTime) / timeLimit)%js in
  let speedBonus := Math_floor (speedRatio * maxSpeedBonus)%js in
  (basePoints + speedBonus)%js.

(** [calculateStreakMultiplier(streak, baseMultiplier, maxMultiplier)] *)
Definition calculateStreakMultiplier
    (streak baseMultiplier maxMultiplier : number) : number :=
  if (streak <= Fin 1)%js then Fin 1
  else
    let multiplier :=
      (Fin 1 + (streak - Fin 1) * (baseMultiplier - Fin 1))%js in
    Math_min multiplier maxMultiplier.

End Scoring.

Import Scoring.

(* ================================================================== *)
(** * Values, strings and arrays *)
(* ================================================================== *)

Module Js.

Open Scope string_scope.

(** The values an untyped argument can hold. *)
Inductive value : Type :=
| VUndefined
| VNull
| VBool (b : bool)
| VNumber (n : number)
| VString (s : string).

(** [typeof v] *)
Definition typeof (v : value) : string :=
  match v with
  | VUndefined => "undefined"
  | VNull => "object"
  | VBool _ => "boolean"
  | VNumber _ => "number"
  | VString _ => "string"
  end.

(** The integer a number stands for when it is used as a position
    ([ToIntegerOrInfinity]): [NaN] is 0, a fraction is cut towards zero,
    the infinities stay out of every range. *)
Definition toInteger (n : number) : option Z :=
  match n with
  | Fin q => Some (Z.quot (Qnum q) (Zpos (Qden q)))
  | NaN => Some 0%Z
  | PosInf | NegInf => None
  end.

(** [s.charAt(pos)]: the one-character string at [pos], or the empty
    string when [pos] is out of range. *)
Definition charAt (s : string) (pos : number) : string :=
  match toInteger pos with
  | Some i =>
      if (i <? 0)%Z then EmptyString
      else match String.get (Z.to_nat i) s with
           | Some c => String c EmptyString
           | None => EmptyString
           end
  | None => EmptyString
  end.

(** [array[k]] for a number [k]: an element only when [k] is an integer
    index inside the array, [undefined] otherwise. *)
Definition at_index {A} (array : list A) (k : number) : option A :=
  match k with
  | Fin q =>
      if isInteger k && Qle_bool 0 q then nth_error array (Z.to_nat (Qfloor q))
      else None
  | _ => None
  end.

(** [array.findIndex(pred)]: the first position where [pred] holds,
    or -1. *)
Fixpoint findIndex_from {A} (pred : A -> bool) (array : list A) (i : Z) : Z :=
  match array with
  | [] => (-1)%Z
  | x :: rest => if pred x then i else findIndex_from pred rest (i + 1)%Z
  end.

Definition findIndex {A} (pred : A -> bool) (array : list A) : Z :=
  findIndex_from pred array 0%Z.

(** [array.map((_, index) => index)] *)
Definition indices {A} (array : list A) : list number :=
  map ofNat (seq 0 (List.length array)).

(** ** [Array.prototype.sort(compareFn)]

    The sort is stable.  [compareFn(a, b) > 0] puts [a] after [b]; any
    other result, [NaN] included, leaves [a] in front.  The elements are
    inserted one by one, from the last to the first, each in front of the
    first element it does not have to follow. *)
Section Sort.

Context {A : Type} (compareFn : A -> A -> number).

Fixpoint sort_insert (a : A) (sorted : list A) : list A :=
  match sorted with
  | [] => [a]
  | b :: rest =>
      if (compareFn a b > Fin 0)%js then b :: sort_insert a rest
      else a :: b :: rest
  end.

Fixpoint sort (array : list A) : list A :=
  match array with
  | [] => []
  | a :: rest => sort_insert a (sort rest)
  end.

(** An array that may hold [undefined]: those elements go to the end
    and [compareFn] is never called on them. *)
Definition defined (array : list (option A)) : list A :=
  flat_map (fun o => match o with Some a => [a] | None => [] end) array.

Definition undefineds (array : list (option A)) : list (option A) :=
  filter (fun o => match o with Some _ => false | None => true end) array.

Definition sort_sparse (array : list (option A)) : list (option A) :=
  map Some (sort (defined array)) ++ undefineds array.

End Sort.

(** ** Regular expressions

    The two patterns of the source, [/^[A-Z0-9]{6}$/] and [/^[A-Z0-9]+$/],
    are a character class repeated over the whole input. *)
Definition in_range (lo hi c : ascii) : bool :=
  (nat_of_ascii lo <=? nat_of_ascii c)%nat
  && (nat_of_ascii c <=? nat_of_ascii hi)%nat.

(** [[A-Z0-9]] *)
Definition upper_or_digit (c : ascii) : bool :=
  in_range "A" "Z" c || in_range "0" "9" c.

(** [/^cls{n}$/.test(s)] *)
Definition test_repeat (cls : ascii -> bool) (n : nat) (s : string) : bool :=
  (String.length s =? n)%nat && forallb cls (list_ascii_of_string s).

(** [/^cls+$/.test(s)] *)
Definition test_plus (cls : ascii -> bool) (s : string) : bool :=
  (1 <=? String.length s)%nat && forallb cls (list_ascii_of_string s).

End Js.

Import Js.

(* ================================================================== *)
(** * Data model (JSDoc type definitions) *)
(* ================================================================== *)

Module Types.

Record Player : Type := mkPlayer {
  player_id : string;
  player_name : string;
  score : number;
  isHost : bool;
  isReady : bool;
  joinedAt : Z;
  streak : number;
  totalCorrect : number
}.

Inductive LobbyStatus : Type :=
| waiting | starting | active | finished | abandoned.

Record Lobby : Type := mkLobby {
  lobby_id : string;
  hostId : string;
  players : list Player;
  status : LobbyStatus;
  lastActivityAt : Z;
  maxPlayers : number
}.

Record Question : Type := mkQuestion {
  question_id : string;
  text : string;
  options : list string;
  correctIndex : number;
  category : string;
  difficulty : string;
  timeLimit : number;
  imageUrl : option string;
  explanation : option string;
  points : option number
}.

(** Payload of [submit-answer]. *)
Record Submission : Type := mkSubmission {
  sub_gameId : string;
  sub_questionId : string;
  sub_playerId : string;
  selectedIndex : number;
  responseTime : number
}.

End Types.

Import Types.

(* ================================================================== *)
(** * Utilities: identifiers, random elements, ranks *)
(* ================================================================== *)

Module Utils.

Open Scope string_scope.

(** The alphabet of [generateLobbyId]. *)
Definition chars : string := "ABCDEFGHIJKLMNOPQRSTUVWXYZ0123456789".

(** The body of the loop of [generateLobbyId], run [n] more times:
    [result += chars.charAt(Math.floor(Math.random() * chars.length))]. *)
Fixpoint generateLobbyId_loop (n : nat) (result : string) : Rand string :=
  match n with
  | O => ret result
  | S n' =>
      r <- Math_random ;;
      let c := charAt chars (Math_floor (r * ofNat (String.length chars))%js) in
      generateLobbyId_loop n' (result ++ c)
  end.

(** [generateLobbyId()] *)
Definition generateLobbyId : Rand string := generateLobbyId_loop 6 EmptyString.

(** [getRandomElement(array)] *)
Definition getRandomElement {A} (array : list A) : Rand (option A) :=
  r <- Math_random ;;
  ret (at_index array (Math_floor (r * ofNat (List.length array))%js)).

(** The comparator of [getPlayerRank], [(a, b) => b.score - a.score]. *)
Definition byScore (a b : Player) : number := (score b - score a)%js.

(** [getPlayerRank(players, playerId)] *)
Definition getPlayerRank (players : list Player) (playerId : string) : Z :=
  let sortedPlayers := sort byScore players in
  let playerIndex := findIndex (fun p => String.eqb (player_id p) playerId) sortedPlayers in
  (playerIndex + 1)%Z.

End Utils.

Import Utils.

(* ================================================================== *)
(** * Game helpers *)
(* ================================================================== *)

Module Helpers.

Open Scope string_scope.

(** [hasAvailableSlots(lobby)] *)
Definition hasAvailableSlots (lobby : Lobby) : bool :=
  (ofNat (List.length (players lobby)) < maxPlayers lobby)%js.

(** [canStartGame(lobby)] *)
Definition canStartGame (lobby : Lobby) : bool :=
  let readyPlayers := filter isReady (players lobby) in
  (ofNat (List.length readyPlayers) >= Fin 2)%js
  && (ofNat (List.length readyPlayers) === ofNat (List.length (players lobby)))%js.

(** [applyFiftyFifty(question)] *)
Definition applyFiftyFifty (question : Question) : Rand (list (option number)) :=
  let correctIndex := correctIndex question in
  let wrongIndices :=
    filter (fun index => negb (index === correctIndex)%js)
           (indices (options question)) in
  keepWrong <- getRandomElement wrongIndices ;;
  ret (sort_sparse (fun a b => (a - b)%js) [Some correctIndex; keepWrong]).

(** [isValidLobbyId(id)] *)
Definition isValidLobbyId (id : value) : bool :=
  String.eqb (typeof id) "string"
  && match id with
     | VString s => test_repeat upper_or_digit 6 s
     | _ => false
     end.

End Helpers.

Import Helpers.

(* ================================================================== *)
(** * shared/errors.js: error values *)
(* ================================================================== *)

Module Errors.

Open Scope string_scope.

Module ERROR_CODES.

Definition VALIDATION_ERROR := "VALIDATION_ERROR".
Definition INVALID_INPUT := "INVALID_INPUT".
Definition LOBBY_NOT_FOUND := "LOBBY_NOT_FOUND".
Definition LOBBY_FULL := "LOBBY_FULL".
Definition LOBBY_CLOSED := "LOBBY_CLOSED".
Definition ALREADY_IN_LOBBY := "ALREADY_IN_LOBBY".

End ERROR_CODES.

(** An [AppError] of class [LobbyError]. *)
Record LobbyError : Type := mkLobbyError {
  lobby_message : string;
  lobby_code : string
}.

Module LobbyErrors.

Definition notFound (lobbyId : string) : LobbyError :=
  mkLobbyError ("Lobby '" ++ lobbyId ++ "' not found") ERROR_CODES.LOBBY_NOT_FOUND.
Definition full (lobbyId : string) : LobbyError :=
  mkLobbyError ("Lobby '" ++ lobbyId ++ "' is full") ERROR_CODES.LOBBY_FULL.
Definition closed (lobbyId : string) : LobbyError :=
  mkLobbyError ("Lobby '" ++ lobbyId ++ "' is closed") ERROR_CODES.LOBBY_CLOSED.
Definition alreadyInLobby (playerId : string) : LobbyError :=
  mkLobbyError ("Player '" ++ playerId ++ "' is already in a lobby")
               ERROR_CODES.ALREADY_IN_LOBBY.

End LobbyErrors.

End Errors.

Import Errors.

(* ================================================================== *)
(** * shared/errors.js: validation schemas *)
(* ================================================================== *)

Module Validation.

Open Scope string_scope.
Open Scope list_scope.

(** One issue of a failed parse: where, and the message the schema
    gives ([None] where the schema leaves the library's default text). *)
Record Issue : Type := mkIssue {
  path : list string;
  message : option string
}.

Definition check (ok : bool) (p : list string) (msg : option string) : list Issue :=
  if ok then [] else [mkIssue p msg].

(** A path element for an array position. *)
Definition index_key (i : nat) : string :=
  NilZero.string_of_uint (Nat.to_uint i).

(** [z.number()]: [NaN] is not a number for the schema and stops the
    parse of the value; its other checks run only on a number. *)
Definition z_number (p : list string) (n : number) (checks : list Issue) : list Issue :=
  if isNaN n then [mkIssue p None] else checks.

(** [.min(k, msg)] and [.max(k, msg)] on a string *)
Definition str_min (k : nat) (msg : option string) (p : list string) (s : string) :=
  check (k <=? String.length s)%nat p msg.
Definition str_max (k : nat) (msg : option string) (p : list string) (s : string) :=
  check (String.length s <=? k)%nat p msg.

(** [.int(msg)], [.min(k, msg)] and [.max(k, msg)] on a number *)
Definition num_int (msg : option string) (p : list string) (n : number) :=
  check (isInteger n) p msg.
Definition num_min (k : number) (msg : option string) (p : list string) (n : number) :=
  check (negb (n < k)%js) p msg.
Definition num_max (k : number) (msg : option string) (p : list string) (n : number) :=
  check (negb (n > k)%js) p msg.

(** [z.enum(values)] *)
Definition z_enum (values : list string) (p : list string) (s : string) :=
  check (existsb (String.eqb s) values) p None.

(** [schema.optional()] *)
Definition optional {A} (schema : A -> list Issue) (o : option A) : list Issue :=
  match o with
  | Some a => schema a
  | None => []
  end.

(** The elements of an array, each with its position. *)
Fixpoint each_from {A} (schema : nat -> A -> list Issue) (i : nat) (l : list A) : list Issue :=
  match l with
  | [] => []
  | a :: rest => schema i a ++ each_from schema (S i) rest
  end.

(** [userIdSchema] *)
Definition userIdSchema (p : list string) (s : string) : list Issue :=
  str_min 1 (Some "User ID cannot be empty") p s
  ++ str_max 128 (Some "User ID too long") p s.

(** [lobbyIdSchema] *)
Definition lobbyIdSchema (p : list string) (s : string) : list Issue :=
  check (String.length s =? 6)%nat p (Some "Lobby ID must be exactly 6 characters")
  ++ check (test_plus upper_or_digit s) p (Some "Lobby ID contains invalid characters").

Section Schemas.
(** The format checks of the validation library, [.url()] and
    [.uuid()], are its own and stay abstract. *)
Variable is_url : string -> bool.
Variable is_uuid : string -> bool.

(** [gameIdSchema] *)
Definition gameIdSchema (p : list string) (s : string) : list Issue :=
  check (is_uuid s) p (Some "Invalid game ID format").

(** The object of [questionSchema], before [.refine]. *)
Definition questionObject (data : Question) : list Issue :=
  str_min 1 (Some "Question ID required") ["id"] (question_id data)
  ++ (str_min 1 (Some "Question text required") ["text"] (text data)
      ++ str_max 500 (Some "Question text too long") ["text"] (text data))
  ++ (check (2 <=? List.length (options data))%nat ["options"]
            (Some "At least 2 options required")
      ++ check (List.length (options data) <=? 6)%nat ["options"]
            (Some "Maximum 6 options allowed")
      ++ each_from
           (fun i o =>
              str_min 1 (Some "Option text required") ["options"; index_key i] o
              ++ str_max 200 (Some "Option text too long") ["options"; index_key i] o)
           0 (options data))
  ++ z_number ["correctIndex"] (correctIndex data)
       (num_int (Some "Correct index must be an integer") ["correctIndex"] (correctIndex data)
        ++ num_min (Fin 0) (Some "Correct index cannot be negative") ["correctIndex"]
             (correctIndex data))
  ++ z_enum QUESTION_CATEGORIES ["category"] (category data)
  ++ z_enum DIFFICULTY_LEVELS ["difficulty"] (difficulty data)
  ++ z_number ["timeLimit"] (timeLimit data)
       (num_int (Some "Time limit must be an integer") ["timeLimit"] (timeLimit data)
        ++ num_min MIN_TIME_PER_QUESTION None ["timeLimit"] (timeLimit data)
        ++ num_max MAX_TIME_PER_QUESTION None ["timeLimit"] (timeLimit data))
  ++ optional (fun u => check (is_url u) ["imageUrl"] None) (imageUrl data)
  ++ optional (str_max 1000 (Some "Explanation too long") ["explanation"])
       (explanation data)
  ++ optional
       (fun n => z_number ["points"] n
                   (num_int None ["points"] n
                    ++ num_min (Fin 1) None ["points"] n
                    ++ num_max (Fin 1000) None ["points"] n))
       (points data).

(** A field of the wrong type stops the parse of the whole object,
    and the refinement is then not run. *)
Definition questionAborted (data : Question) : bool :=
  isNaN (correctIndex data) || isNaN (timeLimit data)
  || match points data with Some n => isNaN n | None => false end.

(** [questionSchema]: the object, refined by
    [data.correctIndex < data.options.length]. *)
Definition questionSchema (data : Question) : list Issue :=
  questionObject data
  ++ (if questionAborted data then []
      else check (correctIndex data < ofNat (List.length (options data)))%js
             ["correctIndex"] (Some "Correct index must be within options range")).

(** [submitAnswerSchema] *)
Definition submitAnswerSchema (data : Submission) : list Issue :=
  gameIdSchema ["gameId"] (sub_gameId data)
  ++ str_min 1 (Some "Question ID required") ["questionId"] (sub_questionId data)
  ++ userIdSchema ["playerId"] (sub_playerId data)
  ++ z_number ["selectedIndex"] (selectedIndex data)
       (num_int (Some "Selected index must be an integer") ["selectedIndex"]
          (selectedIndex data)
        ++ num_min (Fin 0) (Some "Selected index cannot be negative") ["selectedIndex"]
             (selectedIndex data)
        ++ num_max (Fin 5) (Some "Selected index too high") ["selectedIndex"]
             (selectedIndex data))
  ++ z_number ["responseTime"] (responseTime data)
       (num_min (Fin 0) (Some "Response time cannot be negative") ["responseTime"]
          (responseTime data)
        ++ num_max (Fin 300000) (Some "Response time too high (max 5 minutes)")
             ["responseTime"] (responseTime data)).
End Schemas.

(** An entry of the [errors] array of [validateData]. *)
Record FieldError : Type := mkFieldError {
  field : string;
  error_message : option string;
  code : string
}.

(** The result object of [validateData]. *)
Inductive ValidationResult (A : Type) : Type :=
| Success (data : A)
| Failure (errors : list FieldError).
Arguments Success {A} data.
Arguments Failure {A} errors.

(** [validateData(schema, data)]: [schema.parse(data)] throws exactly
    when the parse raised an issue. *)
Definition validateData {A} (schema : A -> list Issue) (data : A) : ValidationResult A :=
  match schema data with
  | [] => Success data
  | errs =>
      Failure
        (map (fun err =>
                mkFieldError (String.concat "." (path err)) (message err)
                             ERROR_CODES.VALIDATION_ERROR)
             errs)
  end.

End Validation.

Import Validation.

(* ================================================================== *)
(** * services/lobbyService.js *)
(* ================================================================== *)

Module LobbyService.

(** The service object: [this.lobbies = new Map()], keyed by lobby id. *)
Record LobbyService : Type := mkLobbyService {
  lobbies : list (string * Lobby)
}.

(** [map.get(key)] *)
Fixpoint Map_get (m : list (string * Lobby)) (key : string) : option Lobby :=
  match m with
  | [] => None
  | (k, v) :: rest => if String.eqb k key then Some v else Map_get rest key
  end.

(** [map.set(key, value)]: an existing key keeps its place. *)
Fixpoint Map_set (m : list (string * Lobby)) (key : string) (v : Lobby)
  : list (string * Lobby) :=
  match m with
  | [] => [(key, v)]
  | (k, w) :: rest =>
      if String.eqb k key then (k, v) :: rest else (k, w) :: Map_set rest key v
  end.

Definition is_waiting (s : LobbyStatus) : bool :=
  match s with
  | waiting => true
  | _ => false
  end.

(** Modelled from the spec: [joinLobby] is missing from the source, where
    the service only has its constructor, [getStatistics] and
    [getPublicLobbies].  Following section 4.3, [joinLobby(lobbyId, player)]
    fails with [LobbyFull] if the lobby is at capacity, with [LobbyClosed]
    if its status is not [waiting], with [AlreadyInLobby] if the player is
    already present; otherwise the player is added at the end of the
    roster, [lastActivityAt] is updated and the lobby is returned.  The
    capacity test is [hasAvailableSlots] and the errors are those of
    [LobbyErrors], both from the source.  A failed call leaves the service
    as it was. *)
Definition joinLobby (service : LobbyService) (now : Z) (lobbyId : string)
    (player : Player) : (LobbyError + Lobby) * LobbyService :=
  match Map_get (lobbies service) lobbyId with
  | None => (inl (LobbyErrors.notFound lobbyId), service)
  | Some lobby =>
      if negb (hasAvailableSlots lobby) then
        (inl (LobbyErrors.full lobbyId), service)
      else if negb (is_waiting (status lobby)) then
        (inl (LobbyErrors.closed lobbyId), service)
      else if existsb (fun p => String.eqb (player_id p) (player_id player))
                (players lobby) then
        (inl (LobbyErrors.alreadyInLobby (player_id player)), service)
      else
        let lobby' :=
          mkLobby (lobby_id lobby) (hostId lobby) (players lobby ++ [player])
                  (status lobby) now (maxPlayers lobby) in
        (inr lobby', mkLobbyService (Map_set (lobbies service) lobbyId lobby'))
  end.

End LobbyService.

Import LobbyService.

(* ================================================================== *)
(** * The formulas of the specification *)
(* ================================================================== *)

Module Spec.

(** Clamping to [[0, 1]]. *)
Definition clamp01 (x : Q) : Q := Qmin 1 (Qmax 0 x).

(** [speedRatio = max(0, (timeLimit - responseTime) / timeLimit)],
    clamped to [[0, 1]]. *)
Definition speedRatio (timeLimit responseTime : Q) : Q :=
  clamp01 (Qmax 0 ((timeLimit - responseTime) / timeLimit)).


(** Streak multiplier:
    [min(1 + (streak - 1) * (streakFactor - 1), maxStreakMultiplier)]. *)
Definition streakMultiplier (streak streakFactor maxStreakMultiplier : Q) : Q :=
  Qmin (1 + (streak - 1) * (streakFactor - 1)) maxStreakMultiplier.

(** Descending final score: [p] may stand in front of [q]. *)
Definition descending (p q : Player) : Prop := (score p >= score q)%js = true.

(** The order of the rankings: a higher score goes first; between
    equal scores the cumulative correct count decides ([prefer] says which
    of two different counts goes first), then the join order. *)
Definition outranks (prefer : number -> number -> bool) (p q : Player) : bool :=
  (score p > score q)%js
  || ((score p === score q)%js
      && (prefer (totalCorrect p) (totalCorrect q)
          || ((totalCorrect p === totalCorrect q)%js
              && (joinedAt p <? joinedAt q)%Z))).

(** A ranking follows the order when each player outranks those listed
    after. *)
Fixpoint ranked (prefer : number -> number -> bool) (ranking : list Player) : bool :=
  match ranking with
  | [] => true
  | p :: rest => forallb (outranks prefer p) rest && ranked prefer rest
  end.

End Spec.

(* ================================================================== *)
(** * Sample data *)
(* ================================================================== *)

Module Examples.

Open Scope string_scope.

(** Two players of equal score; alice joined first. *)
Definition alice (correct : Z) : Player :=
  mkPlayer "alice" "Alice" (ofZ 300) true true 1 (ofZ 0) (ofZ correct).
Definition bob (correct : Z) : Player :=
  mkPlayer "bob" "Bob" (ofZ 300) false true 2 (ofZ 0) (ofZ correct).
Definition carol : Player :=
  mkPlayer "carol" "Carol" (ofZ 450) false true 3 (ofZ 2) (ofZ 3).
Definition dave : Player :=
  mkPlayer "dave" "Dave" (ofZ 120) false true 4 (ofZ 0) (ofZ 1).
Definition erin : Player :=
  mkPlayer "erin" "Erin" (ofZ 0) false false 5 (ofZ 0) (ofZ 0).

(** A lobby of four places, all taken. *)
Definition fullLobby : Lobby :=
  mkLobby "ABC123" "alice" [alice 2; bob 2; carol; dave] waiting 0 (ofZ 4).

Definition service : LobbyService := mkLobbyService [("ABC123", fullLobby)].

(** A question with four options, the third one correct. *)
Definition capital : Question :=
  mkQuestion "q1" "Capital of France?" ["Rome"; "Berlin"; "Paris"; "Madrid"]
             (ofZ 2) "geography" "easy" (ofZ 30) None None None.

End Examples.

(* ================================================================== *)
(** * Utilities: time and numbers *)
(* ================================================================== *)

Module TimeUtils.

(** [secondsToMs(seconds)] *)
Definition secondsToMs (seconds : number) : number := (seconds * Fin 1000)%js.

(** [msToSeconds(milliseconds)] *)
Definition msToSeconds (milliseconds : number) : number :=
  Math_floor (milliseconds / Fin 1000)%js.

(** The object [createTimer] returns.  Its methods close over
    [startTime] and [endTime]; [startedAt] and [endsAt] are the dates of
    these two instants. *)
Record Timer : Type := mkTimer {
  duration : number;
  startTime : number;
  endTime : number;
  timer_isActive : bool
}.

(** [createTimer(durationSeconds)], where [clock] is what [now()]
    returns when the timer is created. *)
Definition createTimer (durationSeconds clock : number) : Timer :=
  let startTime := clock in
  let endTime := (startTime + secondsToMs durationSeconds)%js in
  mkTimer durationSeconds startTime endTime true.

(** [timer.getRemaining()], [timer.isExpired()] and
    [timer.getProgress()], where [clock] is what [now()] returns at the
    call. *)
Definition getRemaining (t : Timer) (clock : number) : number :=
  let remaining := Math_max (Fin 0) (msToSeconds (endTime t - clock)%js) in
  remaining.

Definition isExpired (t : Timer) (clock : number) : bool :=
  (clock >= endTime t)%js.


End TimeUtils.

Import TimeUtils.

Module MathUtils.

(** [clamp(value, min, max)] *)
Definition clamp (value min max : number) : number :=
  Math_min (Math_max value min) max.


End MathUtils.

Import MathUtils.

(* ================================================================== *)
(** * Utilities: arrays *)
(* ================================================================== *)

Module ArrayUtils.

(** [array[k] = v] on an array whose elements may be [undefined]: inside
    the array the element is replaced; past its end the array grows, the
    positions in between being holes; a position that is not an array index
    (negative, fractional, not finite, or from [2^32 - 1] on) names a plain
    property and leaves the elements as they are. *)
Fixpoint set_nth {A} (l : list A) (n : nat) (v : A) : list A :=
  match l, n with
  | [], _ => []
  | _ :: rest, O => v :: rest
  | a :: rest, S n' => a :: set_nth rest n' v
  end.

Definition write {A} (array : list (option A)) (k : number) (v : option A)
  : list (option A) :=
  match k with
  | Fin q =>
      if isInteger k && Qle_bool 0 q then
        let n := Z.to_nat (Qfloor q) in
        if (n <? List.length array)%nat then set_nth array n v
        else if (Qfloor q <? 4294967295)%Z then
          array ++ repeat None (n - List.length array) ++ [v]
        else array
      else array
  | _ => array
  end.

(** [array[k]] on such an array: a hole reads as [undefined]. *)
Definition read {A} (array : list (option A)) (k : number) : option A :=
  match at_index array k with
  | Some v => v
  | None => None
  end.

(** The position a relative argument of [slice] stands for in an array
    of [len] elements: counted from the end when negative, and kept inside
    [[0, len]]. *)
Definition relative (len : nat) (k : number) : nat :=
  match k with
  | PosInf => len
  | NegInf => O
  | _ =>
      match toInteger k with
      | Some z =>
          if (z <? 0)%Z then Z.to_nat (Z.max (Z.of_nat len + z) 0)
          else Z.to_nat (Z.min z (Z.of_nat len))
      | None => O
      end
  end.

(** [array.slice(start, end)] *)
Definition slice {A} (array : list A) (start end_ : number) : list A :=
  let k := relative (List.length array) start in
  let final := relative (List.length array) end_ in
  firstn (final - k) (skipn k array).

(** The loop of [shuffleArray], from position [i] down to 1:
    [j = Math.floor(Math.random() * (i + 1))], then
    [[shuffled[i], shuffled[j]] = [shuffled[j], shuffled[i]]]. *)
Fixpoint shuffleArray_loop {A} (i : nat) (shuffled : list (option A))
  : Rand (list (option A)) :=
  match i with
  | O => ret shuffled
  | S i' =>
      r <- Math_random ;;
      let j := Math_floor (r * (ofNat i + Fin 1))%js in
      let at_j := read shuffled j in
      let at_i := read shuffled (ofNat i) in
      shuffleArray_loop i' (write (write shuffled (ofNat i) at_j) j at_i)
  end.

(** [shuffleArray(array)] *)
Definition shuffleArray {A} (array : list A) : Rand (list (option A)) :=
  let shuffled := map Some array in
  shuffleArray_loop (List.length shuffled - 1) shuffled.

(** [getRandomElements(array, count)] *)
Definition getRandomElements {A} (array : list A) (count : number)
  : Rand (list (option A)) :=
  shuffled <- shuffleArray array ;;
  ret (slice shuffled (Fin 0) (Math_min count (ofNat (List.length array)))).

(** The loop of [chunkArray], which goes on while [i < array.length];
    [fuel] bounds the number of tests of that condition, and [None] means
    that the loop has not ended within it. *)
Fixpoint chunkArray_loop {A} (fuel : nat) (array : list A) (size i : number)
    (chunks : list (list A)) : option (list (list A)) :=
  match fuel with
  | O => None
  | S fuel' =>
      if (i < ofNat (List.length array))%js then
        chunkArray_loop fuel' array size (i + size)%js
          (chunks ++ [slice array i (i + size)%js])
      else Some chunks
  end.

(** [chunkArray(array, size)] *)
Definition chunkArray {A} (fuel : nat) (array : list A) (size : number)
  : option (list (list A)) :=
  chunkArray_loop fuel array size (Fin 0) [].

End ArrayUtils.

Import ArrayUtils.

(* ================================================================== *)
(** * Utilities: strings *)
(* ================================================================== *)

Module StringUtils.

Local Open Scope string_scope.

(** A string is the sequence of its characters, one [ascii] each: the
    lengths and positions are those of JavaScript for texts in ASCII. *)

(** [str.slice(start, end)], on the characters of the string. *)
Definition String_slice (str : string) (start end_ : number) : string :=
  string_of_list_ascii (slice (list_ascii_of_string str) start end_).

(** [truncate(str, maxLength)] *)
Definition truncate (str : string) (maxLength : number) : string :=
  if (ofNat (String.length str) <= maxLength)%js then str
  else String_slice str (Fin 0) (maxLength - Fin 3)%js ++ "...".

(** [str.replace(/c/g, replacement)] for a single character [c]. *)
Fixpoint replace_char (c : ascii) (replacement : string) (str : string) : string :=
  match str with
  | EmptyString => EmptyString
  | String x rest =>
      if Ascii.eqb x c then replacement ++ replace_char c replacement rest
      else String x (replace_char c replacement rest)
  end.

(** The double quote. *)
Definition dquote : ascii := "034"%char.

(** [sanitizeString(str)] *)
Definition sanitizeString (str : string) : string :=
  replace_char "'" "&#x27;"
    (replace_char dquote "&quot;"
       (replace_char ">" "&gt;"
          (replace_char "<" "&lt;"
             (replace_char "&" "&amp;" str)))).

End StringUtils.

Import StringUtils.


(* ================================================================== *)
(** * Utilities: throttling, rate limiting, retries *)
(* ================================================================== *)

Module JsMap.

(** A [Map] with string keys, in insertion order. *)
Definition t (V : Type) : Type := list (string * V).

(** [map.get(key)] *)
Fixpoint get {V} (m : t V) (key : string) : option V :=
  match m with
  | [] => None
  | (k, v) :: rest => if String.eqb k key then Some v else get rest key
  end.

(** [map.has(key)] *)
Definition has {V} (m : t V) (key : string) : bool :=
  match get m key with
  | Some _ => true
  | None => false
  end.

(** [map.set(key, value)]: an existing key keeps its place. *)
Fixpoint set {V} (m : t V) (key : string) (v : V) : t V :=
  match m with
  | [] => [(key, v)]
  | (k, w) :: rest =>
      if String.eqb k key then (k, v) :: rest else (k, w) :: set rest key v
  end.

End JsMap.

Module Throttle.

(** The variable [lastCall] that the function returned by
    [throttle(fn, delay)] closes over; it starts at 0. *)
Definition initial : number := Fin 0.

(** One call of the throttled function, [now] being what [Date.now()]
    returns: the result of [fn], or [undefined] when the call is dropped,
    and the new [lastCall]. *)
Definition call {Args R} (fn : Args -> R) (delay lastCall now : number)
    (args : Args) : option R * number :=
  if (now - lastCall >= delay)%js then (Some (fn args), now)
  else (None, lastCall).

(** A sequence of calls, each with the instant at which it is made. *)
Fixpoint calls {Args R} (fn : Args -> R) (delay lastCall : number)
    (trace : list (number * Args)) : list (option R) * number :=
  match trace with
  | [] => ([], lastCall)
  | (now, args) :: rest =>
      let (result, lastCall') := call fn delay lastCall now args in
      let (results, final) := calls fn delay lastCall' rest in
      (result :: results, final)
  end.

(** The instants of the calls that went through to [fn]. *)
Fixpoint executed {Args R} (trace : list (number * Args))
    (results : list (option R)) : list number :=
  match trace, results with
  | (now, _) :: trace', Some _ :: results' => now :: executed trace' results'
  | _ :: trace', None :: results' => executed trace' results'
  | _, _ => []
  end.

End Throttle.

Module RateLimiter.

(** The map [requests] of [createRateLimiter]: for each identifier, the
    instants of its requests that were let through. *)
Definition requests : Type := JsMap.t (list number).

(** [requests.get(identifier) || []] *)
Definition stored (reqs : requests) (identifier : string) : list number :=
  match JsMap.get reqs identifier with
  | Some userRequests => userRequests
  | None => []
  end.

(** The first step of a call, which cleans the old entries of the
    caller: those not later than [windowStart] are dropped. *)
Definition clean (windowStart : number) (reqs : requests) (identifier : string)
  : requests :=
  if JsMap.has reqs identifier then
    match JsMap.get reqs identifier with
    | Some userRequests =>
        let validRequests := filter (fun time => (time > windowStart)%js) userRequests in
        JsMap.set reqs identifier validRequests
    | None => reqs
    end
  else reqs.

(** One call of the function returned by
    [createRateLimiter(maxRequests, windowMs)], [now] being what
    [Date.now()] returns: the answer and the map after the call. *)
Definition call (maxRequests windowMs : number) (reqs : requests)
    (identifier : string) (now : number) : bool * requests :=
  let windowStart := (now - windowMs)%js in
  let reqs := clean windowStart reqs identifier in
  let userRequests := stored reqs identifier in
  if (ofNat (List.length userRequests) >= maxRequests)%js then (false, reqs)
  else (true, JsMap.set reqs identifier (userRequests ++ [now])).

(** A sequence of calls, each for an identifier at an instant. *)
Fixpoint calls (maxRequests windowMs : number) (reqs : requests)
    (trace : list (string * number)) : list bool * requests :=
  match trace with
  | [] => ([], reqs)
  | (identifier, now) :: rest =>
      let (answer, reqs') := call maxRequests windowMs reqs identifier now in
      let (answers, final) := calls maxRequests windowMs reqs' rest in
      (answer :: answers, final)
  end.

(** The instants of the calls for [identifier] that were let through. *)
Fixpoint accepted (identifier : string) (trace : list (string * number))
    (answers : list bool) : list number :=
  match trace, answers with
  | (id, now) :: trace', true :: answers' =>
      if String.eqb id identifier then now :: accepted identifier trace' answers'
      else accepted identifier trace' answers'
  | _ :: trace', false :: answers' => accepted identifier trace' answers'
  | _, _ => []
  end.

End RateLimiter.

Module Retry.

(** How [retryWithBackoff] settles: with the value of the operation, or
    with the error it throws, [lastError], which is [undefined] when the
    operation was never run. *)
Inductive outcome (E V : Type) : Type :=
| Resolved (value : V)
| Rejected (lastError : option E).
Arguments Resolved {E V} value.
Arguments Rejected {E V} lastError.

(** [Math.pow(2, attempt)] for the counter of the loop. *)
Definition Math_pow2 (attempt : nat) : number := ofZ (2 ^ Z.of_nat attempt).

Section Loop.

Context {E V : Type}.

(** The operation: what its call number [attempt] gives, a thrown error
    or a value. *)
Variable operation : nat -> E + V.
Variable maxRetries : number.
Variable baseDelay : number.

(** The loop of [retryWithBackoff], from [attempt] on, with the delays
    slept so far; [fuel] bounds the number of tests of the loop condition,
    and [None] means that the loop has not ended within it. *)
Fixpoint retry_loop (fuel attempt : nat) (lastError : option E)
    (slept : list number) : option (outcome E V * list number) :=
  match fuel with
  | O => None
  | S fuel' =>
      if (ofNat attempt <= maxRetries)%js then
        match operation attempt with
        | inr value => Some (Resolved value, slept)
        | inl error =>
            if (ofNat attempt === maxRetries)%js then
              Some (Rejected (Some error), slept)
            else
              let delay := (baseDelay * Math_pow2 attempt)%js in
              retry_loop fuel' (S attempt) (Some error) (slept ++ [delay])
        end
      else Some (Rejected lastError, slept)
  end.

(** [retryWithBackoff(operation, maxRetries, baseDelay)]: how it
    settles, and the delays it slept, in order. *)
Definition retryWithBackoff (fuel : nat) : option (outcome E V * list number) :=
  retry_loop fuel 0 None [].

End Loop.

End Retry.

(* ================================================================== *)
(** * shared/errors.js: schemas of the lobby *)
(* ================================================================== *)

Module LobbySchemas.

Local Open Scope string_scope.
Local Open Scope list_scope.

Definition DEFAULT_QUESTION_COUNT : number := ofZ 10.
Definition MAX_QUESTION_COUNT : number := ofZ 50.

(** The input of [lobbySettingsSchema]; a field with a [.default(...)]
    may be absent. *)
Record LobbySettings : Type := mkLobbySettings {
  settings_category : string;
  settings_difficulty : string;
  questionCount : option number;
  timePerQuestion : number;
  showCorrectAnswers : option bool;
  allowSpectators : option bool;
  pointsPerCorrect : number;
  speedBonus : number;
  enablePowerups : option bool
}.

(** [z.enum(values, { errorMap: () => ({ message }) })] *)
Definition z_enum_message (values : list string) (msg : string) (p : list string)
    (s : string) : list Issue :=
  check (existsb (String.eqb s) values) p (Some msg).

(** [lobbySettingsSchema] *)
Definition lobbySettingsSchema (data : LobbySettings) : list Issue :=
  z_enum_message QUESTION_CATEGORIES "Invalid question category" ["category"]
    (settings_category data)
  ++ z_enum_message DIFFICULTY_LEVELS "Invalid difficulty level" ["difficulty"]
       (settings_difficulty data)
  ++ optional
       (fun n => z_number ["questionCount"] n
                   (num_int (Some "Question count must be an integer") ["questionCount"] n
                    ++ num_min (Fin 1) (Some "At least 1 question required")
                         ["questionCount"] n
                    ++ num_max MAX_QUESTION_COUNT (Some "Maximum 50 questions allowed")
                         ["questionCount"] n))
       (questionCount data)
  ++ z_number ["timePerQuestion"] (timePerQuestion data)
       (num_int (Some "Time per question must be an integer") ["timePerQuestion"]
          (timePerQuestion data)
        ++ num_min MIN_TIME_PER_QUESTION (Some "Minimum 5 seconds per question")
             ["timePerQuestion"] (timePerQuestion data)
        ++ num_max MAX_TIME_PER_QUESTION (Some "Maximum 120 seconds per question")
             ["timePerQuestion"] (timePerQuestion data))
  ++ z_number ["pointsPerCorrect"] (pointsPerCorrect data)
       (num_int (Some "Points must be an integer") ["pointsPerCorrect"]
          (pointsPerCorrect data)
        ++ num_min (Fin 1) (Some "Must award at least 1 point") ["pointsPerCorrect"]
             (pointsPerCorrect data)
        ++ num_max (Fin 1000) (Some "Maximum 1000 points per correct answer")
             ["pointsPerCorrect"] (pointsPerCorrect data))
  ++ z_number ["speedBonus"] (speedBonus data)
       (num_int (Some "Speed bonus must be an integer") ["speedBonus"] (speedBonus data)
        ++ num_min (Fin 0) (Some "Speed bonus cannot be negative") ["speedBonus"]
             (speedBonus data)
        ++ num_max (Fin 200) (Some "Maximum 200 speed bonus points") ["speedBonus"]
             (speedBonus data)).

(** The input of [kickPlayerSchema]. *)
Record KickPlayer : Type := mkKickPlayer {
  kick_lobbyId : string;
  kick_hostId : string;
  targetPlayerId : string
}.

(** [kickPlayerSchema]: the object, refined by
    [data.hostId !== data.targetPlayerId]. *)
Definition kickPlayerSchema (data : KickPlayer) : list Issue :=
  (lobbyIdSchema ["lobbyId"] (kick_lobbyId data)
   ++ userIdSchema ["hostId"] (kick_hostId data)
   ++ userIdSchema ["targetPlayerId"] (targetPlayerId data))
  ++ check (negb (String.eqb (kick_hostId data) (targetPlayerId data)))
       ["targetPlayerId"] (Some "Host cannot kick themselves").

(** The input of [transferHostSchema]. *)
Record TransferHost : Type := mkTransferHost {
  transfer_lobbyId : string;
  currentHostId : string;
  newHostId : string
}.

(** [transferHostSchema]: the object, refined by
    [data.currentHostId !== data.newHostId]. *)
Definition transferHostSchema (data : TransferHost) : list Issue :=
  (lobbyIdSchema ["lobbyId"] (transfer_lobbyId data)
   ++ userIdSchema ["currentHostId"] (currentHostId data)
   ++ userIdSchema ["newHostId"] (newHostId data))
  ++ check (negb (String.eqb (currentHostId data) (newHostId data)))
       ["newHostId"] (Some "Cannot transfer host to the same player").

End LobbySchemas.

Import LobbySchemas.

(* ================================================================== *)
(** * Notions used to state the properties of the utilities *)
(* ================================================================== *)

Module Spec2.

Local Open Scope string_scope.

(** The entity that stands for a character in HTML text, the character
    itself when it needs none. *)
Definition escape (c : ascii) : string :=
  if Ascii.eqb c "&" then "&amp;"
  else if Ascii.eqb c "<" then "&lt;"
  else if Ascii.eqb c ">" then "&gt;"
  else if Ascii.eqb c dquote then "&quot;"
  else if Ascii.eqb c "'" then "&#x27;"
  else String c EmptyString.

(** Escaping a text character by character, in one pass. *)
Fixpoint escape_all (str : string) : string :=
  match str with
  | EmptyString => EmptyString
  | String c rest => escape c ++ escape_all rest
  end.

(** The characters that [sanitizeString] is there to remove. *)
Definition is_markup (c : ascii) : bool :=
  Ascii.eqb c "<" || Ascii.eqb c ">" || Ascii.eqb c dquote || Ascii.eqb c "'".

(** Instants that keep a distance of at least [delay], starting from
    [last]: each one comes [delay] or more after the one before. *)
Fixpoint spaced (delay last : number) (times : list number) : Prop :=
  match times with
  | [] => True
  | now :: rest => (now - last >= delay)%js = true /\ spaced delay now rest
  end.

(** A sequence of requests with finite instants. *)
Definition instants (trace : list (string * Q)) : list (string * number) :=
  map (fun c => (fst c, Fin (snd c))) trace.

(** The delays of an exponential backoff before attempt [k]:
    [baseDelay * 2^0], ..., [baseDelay * 2^(k-1)]. *)
Definition backoff (baseDelay : number) (k : nat) : list number :=
  map (fun attempt => (baseDelay * Retry.Math_pow2 attempt)%js) (seq 0 k).

(** The sum of a list of delays. *)
Definition total (delays : list number) : number := fold_left add delays (Fin 0).

End Spec2.

(* ================================================================== *)
(** * Properties of the number model *)
(* ================================================================== *)

Section NumberFacts.

Lemma num_eq_refl (a : number) : a =n= a.
Proof. destruct a; simpl; auto with qarith. Qed.


Lemma num_eq_trans (a b c : number) : a =n= b -> b =n= c -> a =n= c.
Proof.
  destruct a, b, c; simpl; try tauto.
  intros H1 H2. now rewrite H1.
Qed.


Lemma Qle_bool_false_iff (x y : Q) : Qle_bool x y = false <-> y < x.
Proof.
  split.
  - intros E. apply Qnot_le_lt. intros H. apply Qle_bool_iff in H. congruence.
  - intros H. destruct (Qle_bool x y) eqn:E; [|reflexivity].
    apply Qle_bool_iff in E. lra.
Qed.

(** [Math.max] on two finite numbers is the rational maximum. *)
Lemma Math_max_Fin (x y : Q) : Math_max (Fin x) (Fin y) =n= Fin (Qmax x y).
Proof.
  simpl. destruct (Qle_bool x y) eqn:E; simpl.
  - apply Qle_bool_iff in E. symmetry. now apply Q.max_r.
  - apply Qle_bool_false_iff in E. symmetry. apply Q.max_l. lra.
Qed.

(** [Math.min] on two finite numbers is the rational minimum. *)
Lemma Math_min_Fin (x y : Q) : Math_min (Fin x) (Fin y) =n= Fin (Qmin x y).
Proof.
  simpl. destruct (Qle_bool x y) eqn:E; simpl.
  - apply Qle_bool_iff in E. symmetry. now apply Q.min_l.
  - apply Qle_bool_false_iff in E. symmetry. apply Q.min_r. lra.
Qed.

(** The quotient [(T - r) / T] for a positive [T]. *)
Lemma ratio_le_1 (T r : Q) : 0 < T -> 0 <= r -> (T - r) / T <= 1.
Proof.
  intros HT Hr. apply Qle_shift_div_r; [assumption|]. lra.
Qed.


Lemma ratio_antitone (T r1 r2 : Q) :
  0 < T -> r1 <= r2 -> (T - r2) / T <= (T - r1) / T.
Proof.
  intros HT Hr. unfold Qdiv. apply Qmult_le_compat_r; [lra|].
  apply Qlt_le_weak, Qinv_lt_0_compat, HT.
Qed.

End NumberFacts.

(* ================================================================== *)
(** * Scoring *)
(* ================================================================== *)

Section ScoringFacts.

Open Scope Q_scope.

(** On finite arguments with a non-zero time limit the score is a finite
    number, given by the formula of the code read over the rationals. *)
Lemma calculateScore_Fin (b r T m : Q) :
  ~ T == 0 ->
  calculateScore (Fin b) (Fin r) (Fin T) (Fin m)
  =n= Fin (b + inject_Z (Qfloor (Qmax 0 ((T - r) / T) * m))).
Proof.
  intros HT. unfold calculateScore. cbn [sub neg add div].
  destruct (Qeq_bool T 0) eqn:E; [apply Qeq_bool_eq in E; contradiction|].
  generalize (Math_max_Fin 0 ((T + - r) / T)).
  destruct (Math_max (Fin 0) (Fin ((T + - r) / T))) as [y| | |];
    cbn [num_eq Math_floor mul add]; try tauto.
  intros Hy. rewrite Hy. reflexivity.
Qed.





Example calculateScore_fast :
  calculateScore (Fin 100) (Fin 2) (Fin 10) (Fin 50) =n= Fin 140.
Proof. vm_compute. reflexivity. Qed.

Example calculateScore_late :
  calculateScore (Fin 100) (Fin 12) (Fin 10) (Fin 50) =n= Fin 100.
Proof. vm_compute. reflexivity. Qed.

Lemma leb_of_Fin (a b : number) (x y : Q) :
  a =n= Fin x -> b =n= Fin y -> x <= y -> (a <= b)%js = true.
Proof.
  destruct a as [p| | |], b as [q| | |]; cbn [num_eq]; try tauto.
  intros Hp Hq Hxy. cbn [leb]. apply Qle_bool_iff. rewrite Hp, Hq. exact Hxy.
Qed.

(** C2.  For a base score and for valid settings (a positive time limit
    and a speed bonus that is not negative), the score of a correct answer
    does not increase with the response time over [[0, timeLimit]]; the
    points for an incorrect or missing answer, [POINTS_INCORRECT], are 0. *)
Theorem calculateScore_antitone (basePoints timeLimit maxSpeedBonus r1 r2 : Q) :
  0 < timeLimit -> 0 <= maxSpeedBonus ->
  0 <= r1 -> r1 <= r2 -> r2 <= timeLimit ->
  (calculateScore (Fin basePoints) (Fin r2) (Fin timeLimit) (Fin maxSpeedBonus)
   <= calculateScore (Fin basePoints) (Fin r1) (Fin timeLimit) (Fin maxSpeedBonus))%js
  = true
  /\ POINTS_INCORRECT =n= Fin 0.
Proof.
  intros HT Hm H1 H12 H2. split; [|reflexivity].
  assert (HT0 : ~ timeLimit == 0) by lra.
  eapply leb_of_Fin.
  - apply calculateScore_Fin, HT0.
  - apply calculateScore_Fin, HT0.
  - apply Qplus_le_r. rewrite <- Zle_Qle. apply Qfloor_resp_le.
    apply Qmult_le_compat_r; [|exact Hm].
    apply Q.max_le_compat_l. now apply ratio_antitone.
Qed.

Lemma calculateScore_antitone_witness :
  (calculateScore (Fin 100) (Fin 7) (Fin 10) (Fin 50)
   <= calculateScore (Fin 100) (Fin 2) (Fin 10) (Fin 50))%js = true
  /\ POINTS_INCORRECT =n= Fin 0.
Proof. apply (@calculateScore_antitone 100 10 50 2 7); lra. Defined.







(** C4, as stated, fails at [streak = 0]: with the factor 1.1 and the
    cap 2 the formula gives 0.9, the code gives 1. *)
Lemma calculateStreakMultiplier_first_answer :
  calculateStreakMultiplier (Fin 0) STREAK_MULTIPLIER MAX_STREAK_MULTIPLIER =n= Fin 1
  /\ Spec.streakMultiplier 0 (11 # 10) 2 == 9 # 10
  /\ ~ calculateStreakMultiplier (Fin 0) (Fin (11 # 10)) (Fin 2)
        =n= Fin (Spec.streakMultiplier 0 (11 # 10) 2).
Proof.
  split; [vm_compute; reflexivity|].
  split; [vm_compute; reflexivity|].
  vm_compute. discriminate.
Qed.

(** C4, amended.  With [streakFactor >= 1] and [maxStreakMultiplier >= 1],
    the multiplier equals
    [min(1 + (streak - 1) * (streakFactor - 1), maxStreakMultiplier)] for
    every streak of at least 1, and is 1 for every streak of at most 1, in
    particular for the streak 0 of a first correct answer. *)
Theorem calculateStreakMultiplier_correct (streak streakFactor maxStreakMultiplier : Q) :
  1 <= streakFactor -> 1 <= maxStreakMultiplier ->
  (1 <= streak ->
   calculateStreakMultiplier (Fin streak) (Fin streakFactor) (Fin maxStreakMultiplier)
     =n= Fin (Spec.streakMultiplier streak streakFactor maxStreakMultiplier))
  /\ (streak <= 1 ->
      calculateStreakMultiplier (Fin streak) (Fin streakFactor) (Fin maxStreakMultiplier)
        =n= Fin 1).
Proof.
  intros Hf HM. unfold calculateStreakMultiplier. cbn [leb sub neg add mul].
  split; intros Hs.
  - destruct (Qle_bool streak 1) eqn:E.
    + apply Qle_bool_iff in E.
      assert (H1 : streak == 1) by lra.
      cbn [num_eq]. unfold Spec.streakMultiplier. symmetry.
      assert (H0 : 1 + (streak - 1) * (streakFactor - 1) == 1).
      { rewrite H1. ring. }
      rewrite Q.min_l; [exact H0 | lra].
    + exact (Math_min_Fin _ _).
  - apply Qle_bool_iff in Hs. rewrite Hs. reflexivity.
Qed.

Lemma calculateStreakMultiplier_correct_witness :
  (1 <= 3 ->
   calculateStreakMultiplier (Fin 3) (Fin (11 # 10)) (Fin 2)
     =n= Fin (Spec.streakMultiplier 3 (11 # 10) 2))
  /\ (3 <= 1 -> calculateStreakMultiplier (Fin 3) (Fin (11 # 10)) (Fin 2) =n= Fin 1).
Proof. apply (@calculateStreakMultiplier_correct 3 (11 # 10) 2); lra. Defined.

End ScoringFacts.

(* ================================================================== *)
(** * Lobbies *)
(* ================================================================== *)

Section LobbyFacts.

Open Scope nat_scope.

Lemma ofNat_geb (n k : nat) :
  (ofNat n >= ofNat k)%js = true <-> k <= n.
Proof.
  unfold geb, ofNat, ofZ. cbn [leb]. rewrite Qle_bool_iff, <- Zle_Qle. lia.
Qed.

Lemma ofNat_ltb (n k : nat) :
  (ofNat n < ofNat k)%js = true <-> n < k.
Proof.
  unfold ofNat, ofZ. cbn [ltb]. rewrite negb_true_iff, Qle_bool_false_iff, <- Zlt_Qlt.
  lia.
Qed.

Lemma ofNat_strict_eqb (n k : nat) :
  (ofNat n === ofNat k)%js = true <-> n = k.
Proof.
  unfold ofNat, ofZ. cbn [strict_eqb]. rewrite Qeq_bool_iff, inject_Z_injective. lia.
Qed.

Lemma filter_length_le {A} (f : A -> bool) (l : list A) :
  List.length (filter f l) <= List.length l.
Proof.
  induction l as [|a l IH]; simpl; [lia|]. destruct (f a); simpl; lia.
Qed.

(** Filtering keeps the length exactly when it removes nothing. *)
Lemma filter_length_all {A} (f : A -> bool) (l : list A) :
  List.length (filter f l) = List.length l <-> Forall (fun a => f a = true) l.
Proof.
  induction l as [|a l IH]; simpl.
  - split; [constructor | reflexivity].
  - destruct (f a) eqn:E; simpl.
    + split.
      * intros H. constructor; [exact E | apply IH; lia].
      * intros H. inversion H; subst. f_equal. now apply IH.
    + split.
      * intros H. pose proof (filter_length_le f l). lia.
      * intros H. inversion H; subst. congruence.
Qed.

(** C6.  [canStartGame] holds if and only if the lobby has at least
    [MIN_PLAYERS_TO_START] (2) players and every player of the roster is
    ready; there is no forced start in the function. *)
Theorem canStartGame_iff (lobby : Lobby) :
  canStartGame lobby = true
  <-> (ofNat (List.length (players lobby)) >= MIN_PLAYERS_TO_START)%js = true
      /\ 2 <= List.length (players lobby)
      /\ Forall (fun p => isReady p = true) (players lobby).
Proof.
  unfold canStartGame, MIN_PLAYERS_TO_START.
  change (Fin 2) with (ofNat 2). change (ofZ 2) with (ofNat 2).
  rewrite andb_true_iff, !ofNat_geb, ofNat_strict_eqb, filter_length_all.
  split.
  - intros [H2 Hall]. rewrite (proj2 (filter_length_all _ _) Hall) in H2. tauto.
  - intros (_ & H2 & Hall). rewrite (proj2 (filter_length_all _ _) Hall). tauto.
Qed.

Lemma Map_get_set_same (m : list (string * Lobby)) (key : string) (v : Lobby) :
  Map_get (Map_set m key v) key = Some v.
Proof.
  induction m as [|[k w] m IH]; simpl.
  - now rewrite String.eqb_refl.
  - destruct (String.eqb k key) eqn:E; simpl; rewrite E; auto.
Qed.

(** C7.  A lobby has available slots exactly when [players.length] is
    below [maxPlayers]; on a lobby at capacity [joinLobby] fails with the
    [LOBBY_FULL] error and leaves the service, hence the roster and its
    length, unchanged. *)
Theorem joinLobby_full (service : LobbyService) (now : Z) (lobbyId : string)
    (lobby : Lobby) (player : Player) (capacity : Q) :
  Map_get (lobbies service) lobbyId = Some lobby ->
  maxPlayers lobby = Fin capacity ->
  (hasAvailableSlots lobby = true
   <-> (inject_Z (Z.of_nat (List.length (players lobby))) < capacity)%Q)
  /\ (inject_Z (Z.of_nat (List.length (players lobby))) == capacity ->
      joinLobby service now lobbyId player = (inl (LobbyErrors.full lobbyId), service)
      /\ lobby_code (LobbyErrors.full lobbyId) = ERROR_CODES.LOBBY_FULL
      /\ Map_get (lobbies (snd (joinLobby service now lobbyId player))) lobbyId
         = Some lobby).
Proof.
  intros Hget Hmax.
  assert (Hslots : hasAvailableSlots lobby = true
                   <-> (inject_Z (Z.of_nat (List.length (players lobby))) < capacity)%Q).
  { unfold hasAvailableSlots. rewrite Hmax. unfold ofNat, ofZ. cbn [ltb].
    now rewrite negb_true_iff, Qle_bool_false_iff. }
  split; [exact Hslots|].
  intros Hfull.
  assert (Hno : hasAvailableSlots lobby = false).
  { apply not_true_is_false. intros E.
    apply Hslots in E. rewrite Hfull in E. now apply Qlt_irrefl in E. }
  assert (Hjoin : joinLobby service now lobbyId player
                  = (inl (LobbyErrors.full lobbyId), service)).
  { unfold joinLobby. now rewrite Hget, Hno. }
  rewrite Hjoin. repeat split. exact Hget.
Qed.

Lemma joinLobby_full_witness :
  (hasAvailableSlots Examples.fullLobby = true
   <-> (inject_Z (Z.of_nat (List.length (players Examples.fullLobby))) < 4)%Q)
  /\ (inject_Z (Z.of_nat (List.length (players Examples.fullLobby))) == 4 ->
      joinLobby Examples.service 7 "ABC123" Examples.erin
      = (inl (LobbyErrors.full "ABC123"), Examples.service)
      /\ lobby_code (LobbyErrors.full "ABC123") = ERROR_CODES.LOBBY_FULL
      /\ Map_get (lobbies (snd (joinLobby Examples.service 7 "ABC123" Examples.erin)))
           "ABC123"
         = Some Examples.fullLobby).
Proof.
  apply (@joinLobby_full Examples.service 7 "ABC123" Examples.fullLobby
           Examples.erin 4); reflexivity.
Defined.

(** A join that succeeds puts the player at the end of the roster. *)
Lemma joinLobby_joined (service : LobbyService) (now : Z) (lobbyId : string)
    (player : Player) (lobby' : Lobby) :
  fst (joinLobby service now lobbyId player) = inr lobby' ->
  exists lobby,
    Map_get (lobbies service) lobbyId = Some lobby
    /\ hasAvailableSlots lobby = true
    /\ players lobby' = players lobby ++ [player]
    /\ Map_get (lobbies (snd (joinLobby service now lobbyId player))) lobbyId
       = Some lobby'.
Proof.
  unfold joinLobby. destruct (Map_get (lobbies service) lobbyId) as [lobby|] eqn:Hget;
    [|discriminate].
  destruct (hasAvailableSlots lobby) eqn:Hs; cbn [negb]; [|discriminate].
  destruct (is_waiting (status lobby)); cbn [negb]; [|discriminate].
  destruct (existsb _ (players lobby)); [discriminate|].
  cbn [fst snd]. intros H. injection H as <-.
  exists lobby. split; [reflexivity|]. split; [exact Hs|]. split; [reflexivity|].
  cbn [lobbies]. apply Map_get_set_same.
Qed.

End LobbyFacts.

(* ================================================================== *)
(** * Rankings *)
(* ================================================================== *)

Section RankingFacts.



Lemma sub_pos_ltb (a b : number) :
  (b - a > Fin 0)%js = true -> (a < b)%js = true.
Proof.
  destruct a as [x| | |], b as [y| | |]; cbn; try discriminate; try reflexivity.
  rewrite !negb_true_iff, !Qle_bool_false_iff. intros H. lra.
Qed.

Lemma sub_nonpos_leb (a b : number) :
  isNaN a = false -> isNaN b = false ->
  (b - a > Fin 0)%js = false -> (b <= a)%js = true.
Proof.
  destruct a as [x| | |], b as [y| | |]; cbn; try discriminate; try reflexivity.
  rewrite negb_false_iff, !Qle_bool_iff. intros _ _ H. lra.
Qed.

Lemma ltb_leb (a b : number) : (a < b)%js = true -> (a <= b)%js = true.
Proof.
  destruct a as [x| | |], b as [y| | |]; cbn; try discriminate; try reflexivity.
  rewrite negb_true_iff, Qle_bool_false_iff, Qle_bool_iff. intros H. lra.
Qed.

Lemma leb_trans (a b c : number) :
  (a <= b)%js = true -> (b <= c)%js = true -> (a <= c)%js = true.
Proof.
  destruct a as [x| | |], b as [y| | |], c as [z| | |]; cbn;
    try discriminate; try reflexivity.
  rewrite !Qle_bool_iff. intros H1 H2. lra.
Qed.

(** Two numbers in strict order are not both equal to a third. *)
Lemma ltb_strict_eqb (a b s : number) :
  (a < b)%js = true -> (a === s)%js = true -> (b === s)%js = false.
Proof.
  destruct a as [x| | |], b as [y| | |], s as [z| | |]; cbn;
    try discriminate; try reflexivity.
  rewrite negb_true_iff, Qle_bool_false_iff, Qeq_bool_iff. intros H1 H2.
  apply not_true_is_false. rewrite Qeq_bool_iff. intros H3. lra.
Qed.

Lemma sort_insert_perm {A} (cmp : A -> A -> number) (a : A) (l : list A) :
  Permutation (a :: l) (sort_insert cmp a l).
Proof.
  induction l as [|b l IH]; cbn [sort_insert]; [reflexivity|].
  destruct (cmp a b > Fin 0)%js; [|reflexivity].
  rewrite perm_swap. now apply perm_skip.
Qed.

(** The sorted array holds the elements of the array, each as often. *)
Lemma sort_perm {A} (cmp : A -> A -> number) (l : list A) :
  Permutation l (sort cmp l).
Proof.
  induction l as [|a l IH]; cbn [sort]; [reflexivity|].
  rewrite <- sort_insert_perm. now apply perm_skip.
Qed.

Lemma sort_insert_sorted (a : Player) (l : list Player) :
  isNaN (score a) = false ->
  Forall (fun p => isNaN (score p) = false) l ->
  StronglySorted Spec.descending l -> StronglySorted Spec.descending (sort_insert byScore a l).
Proof.
  intros Ha Hl Hs. induction Hs as [|b l Hs IH Hb]; cbn [sort_insert].
  - repeat constructor.
  - inversion Hl as [|? ? Hbn Hln]; subst.
    unfold byScore at 1. destruct (score b - score a > Fin 0)%js eqn:E.
    + constructor; [now apply IH|].
      apply (Permutation_Forall (sort_insert_perm byScore a l)).
      constructor; [|exact Hb].
      apply ltb_leb, sub_pos_ltb, E.
    + assert (Hab : Spec.descending a b) by (apply sub_nonpos_leb; assumption).
      constructor; [constructor; assumption|].
      constructor; [exact Hab|].
      eapply Forall_impl; [|exact Hb].
      intros c Hc. unfold Spec.descending, geb in *. eapply leb_trans; eassumption.
Qed.

Lemma sort_sorted (l : list Player) :
  Forall (fun p => isNaN (score p) = false) l ->
  StronglySorted Spec.descending (sort byScore l).
Proof.
  induction 1 as [|a l Ha Hl IH]; cbn [sort]; [constructor|].
  apply sort_insert_sorted; [exact Ha| |exact IH].
  apply (Permutation_Forall (sort_perm byScore l)), Hl.
Qed.

Lemma sort_insert_filter (s : number) (a : Player) (l : list Player) :
  filter (fun p => (score p === s)%js) (sort_insert byScore a l)
  = filter (fun p => (score p === s)%js) (a :: l).
Proof.
  induction l as [|b l IH]; [reflexivity|].
  cbn [sort_insert]. unfold byScore at 1.
  destruct (score b - score a > Fin 0)%js eqn:E; [|reflexivity].
  apply sub_pos_ltb in E.
  cbn [filter] in *. rewrite IH.
  destruct (score a === s)%js eqn:Ea; [|reflexivity].
  now rewrite (ltb_strict_eqb _ _ _ E Ea).
Qed.

(** The sort is stable: the players of one score keep their order. *)
Lemma sort_stable (s : number) (l : list Player) :
  filter (fun p => (score p === s)%js) (sort byScore l)
  = filter (fun p => (score p === s)%js) l.
Proof.
  induction l as [|a l IH]; [reflexivity|].
  cbn [sort]. rewrite sort_insert_filter. cbn [filter]. now rewrite IH.
Qed.

Lemma findIndex_from_found {A} (pred : A -> bool) (l : list A) (i : Z) (a : A) :
  In a l -> pred a = true ->
  exists b, nth_error l (Z.to_nat (findIndex_from pred l i - i)) = Some b
            /\ pred b = true
            /\ (i <= findIndex_from pred l i < i + Z.of_nat (List.length l))%Z.
Proof.
  revert i. induction l as [|x l IH]; intros i Hin Ha; [contradiction|].
  cbn [findIndex_from]. destruct (pred x) eqn:Ex.
  - exists x. rewrite Z.sub_diag. cbn [List.length]. repeat split; auto; lia.
  - destruct Hin as [->|Hin]; [congruence|].
    destruct (IH (i + 1)%Z Hin Ha) as (b & Hb & Hpb & Hrange).
    exists b. cbn [List.length]. repeat split; auto; try lia.
    replace (Z.to_nat (findIndex_from pred l (i + 1) - i))
      with (S (Z.to_nat (findIndex_from pred l (i + 1) - (i + 1)))) by lia.
    exact Hb.
Qed.

(** C5, as stated, fails on the tie-break by correct count: two players
    of equal score stay in the order of the input, whichever of them has
    the larger [totalCorrect].  The ranking the specification asks for
    would put bob first in one of the two rosters, whether the larger or
    the smaller count is the one preferred. *)
Lemma getPlayerRank_ignores_totalCorrect :
  getPlayerRank [Examples.alice 1; Examples.bob 3] "alice" = 1%Z
  /\ getPlayerRank [Examples.alice 1; Examples.bob 3] "bob" = 2%Z
  /\ getPlayerRank [Examples.alice 3; Examples.bob 1] "alice" = 1%Z
  /\ getPlayerRank [Examples.alice 3; Examples.bob 1] "bob" = 2%Z
  /\ Spec.ranked gtb (sort byScore [Examples.alice 1; Examples.bob 3]) = false
  /\ Spec.ranked gtb [Examples.bob 3; Examples.alice 1] = true
  /\ Spec.ranked ltb (sort byScore [Examples.alice 3; Examples.bob 1]) = false
  /\ Spec.ranked ltb [Examples.bob 1; Examples.alice 3] = true.
Proof. repeat split; vm_compute; reflexivity. Qed.

(** C5, amended.  For players whose scores are numbers, the ranking is
    the roster reordered by descending score, the players of one score
    staying in the order of the input (the join order of the roster);
    [totalCorrect] plays no part.  The rank of a player of the roster is
    its 1-based position in that ranking.  Being a function of the input
    list, the ranking is the same on every run. *)
Theorem getPlayerRank_ranking (players : list Player) :
  Forall (fun p => isNaN (score p) = false) players ->
  let sortedPlayers := sort byScore players in
  Permutation players sortedPlayers
  /\ StronglySorted Spec.descending sortedPlayers
  /\ (forall s, filter (fun p => (score p === s)%js) sortedPlayers
                = filter (fun p => (score p === s)%js) players)
  /\ (forall p, In p players ->
        (1 <= getPlayerRank players (player_id p) <= Z.of_nat (List.length players))%Z
        /\ exists q,
             nth_error sortedPlayers
               (Z.to_nat (getPlayerRank players (player_id p) - 1)) = Some q
             /\ player_id q = player_id p).
Proof.
  intros Hnum sortedPlayers. subst sortedPlayers.
  pose proof (sort_perm byScore players) as Hperm.
  split; [exact Hperm|].
  split; [exact (sort_sorted Hnum)|].
  split; [intros s; apply sort_stable|].
  intros p Hp.
  assert (Hin : In p (sort byScore players)) by (eapply Permutation_in; eassumption).
  destruct (findIndex_from_found (fun q => String.eqb (player_id q) (player_id p))
              (sort byScore players) 0 p Hin (String.eqb_refl _))
    as (q & Hq & Hid & Hrange).
  unfold getPlayerRank, findIndex.
  rewrite <- (Permutation_length Hperm) in Hrange.
  split; [lia|].
  exists q. split.
  - rewrite Z.sub_0_r in Hq. now rewrite Z.add_simpl_r.
  - now apply String.eqb_eq in Hid.
Qed.

Lemma getPlayerRank_ranking_witness :
  let players := [Examples.dave; Examples.alice 2; Examples.carol; Examples.bob 2] in
  let sortedPlayers := sort byScore players in
  Permutation players sortedPlayers
  /\ StronglySorted Spec.descending sortedPlayers
  /\ (forall s, filter (fun p => (score p === s)%js) sortedPlayers
                = filter (fun p => (score p === s)%js) players)
  /\ (forall p, In p players ->
        (1 <= getPlayerRank players (player_id p) <= Z.of_nat (List.length players))%Z
        /\ exists q,
             nth_error sortedPlayers
               (Z.to_nat (getPlayerRank players (player_id p) - 1)) = Some q
             /\ player_id q = player_id p).
Proof.
  apply (@getPlayerRank_ranking
           [Examples.dave; Examples.alice 2; Examples.carol; Examples.bob 2]).
  repeat constructor.
Defined.

Example ranking_sample :
  map player_id
      (sort byScore [Examples.dave; Examples.alice 2; Examples.carol; Examples.bob 2])
  = ["carol"; "alice"; "bob"; "dave"]%string.
Proof. vm_compute. reflexivity. Qed.

Example rank_unknown_player :
  getPlayerRank [Examples.dave; Examples.carol] "nobody" = 0%Z.
Proof. vm_compute. reflexivity. Qed.

End RankingFacts.

(* ================================================================== *)
(** * Question validation *)
(* ================================================================== *)

Section ValidationFacts.

Variable is_url : string -> bool.

Lemma check_nil (ok : bool) (p : list string) (msg : option string) :
  check ok p msg = [] -> ok = true.
Proof. destruct ok; [reflexivity | discriminate]. Qed.

Lemma z_number_nil (p : list string) (n : number) (checks : list Issue) :
  z_number p n checks = [] -> isNaN n = false /\ checks = [].
Proof. unfold z_number. destruct (isNaN n); [discriminate | auto]. Qed.

(** [validateData] succeeds exactly when the parse raises no issue, and
    then returns the data. *)
Lemma validateData_Success {A} (schema : A -> list Issue) (data data' : A) :
  validateData schema data = Success data' <-> schema data = [] /\ data' = data.
Proof.
  unfold validateData. destruct (schema data); split.
  - intros H. injection H as <-. auto.
  - intros [_ ->]. reflexivity.
  - discriminate.
  - intros [H _]. discriminate.
Qed.

(** An integer position reads the array like [nth_error]. *)
Lemma at_index_ofZ {A} (array : list A) (z : Z) :
  (0 <= z)%Z -> at_index array (ofZ z) = nth_error array (Z.to_nat z).
Proof.
  intros Hz. unfold at_index, ofZ, isInteger. rewrite Qfloor_Z.
  assert (H1 : Qeq_bool (inject_Z z) (inject_Z z) = true) by now apply Qeq_bool_iff.
  assert (H2 : Qle_bool 0 (inject_Z z) = true).
  { apply Qle_bool_iff. change 0%Q with (inject_Z 0). now rewrite <- Zle_Qle. }
  now rewrite H1, H2.
Qed.

(** C8.  A question that [questionSchema] accepts has between 2 and 6
    options and a [correctIndex] that is an integer, not negative and
    below [options.length]; reading the correct option is in bounds. *)
Theorem questionSchema_correctIndex_in_bounds (data data' : Question) :
  validateData (questionSchema is_url) data = Success data' ->
  (2 <= List.length (options data') <= 6)%nat
  /\ exists k : Z,
       correctIndex data' =n= ofZ k
       /\ (0 <= k < Z.of_nat (List.length (options data')))%Z
       /\ exists option,
            at_index (options data') (correctIndex data') = Some option
            /\ nth_error (options data') (Z.to_nat k) = Some option.
Proof.
  intros Hok. apply validateData_Success in Hok. destruct Hok as [Hnil ->].
  unfold questionSchema in Hnil. apply app_eq_nil in Hnil.
  destruct Hnil as [Hobj Hrefine]. unfold questionObject in Hobj.
  apply app_eq_nil in Hobj as [_ Hobj].
  apply app_eq_nil in Hobj as [_ Hobj].
  apply app_eq_nil in Hobj as [Hopts Hobj].
  apply app_eq_nil in Hobj as [Hci Hobj].
  apply app_eq_nil in Hobj as [_ Hobj].
  apply app_eq_nil in Hobj as [_ Hobj].
  apply app_eq_nil in Hobj as [Htl Hobj].
  apply app_eq_nil in Hobj as [_ Hobj].
  apply app_eq_nil in Hobj as [_ Hpts].
  apply app_eq_nil in Hopts as [Hmin2 Hopts].
  apply app_eq_nil in Hopts as [Hmax6 _].
  apply check_nil, Nat.leb_le in Hmin2.
  apply check_nil, Nat.leb_le in Hmax6.
  apply z_number_nil in Hci. destruct Hci as [Hnan Hci].
  apply app_eq_nil in Hci. destruct Hci as [Hint Hmin].
  apply check_nil in Hint. apply check_nil, negb_true_iff in Hmin.
  apply z_number_nil in Htl. destruct Htl as [Hnan_t _].
  assert (Hnan_p : match points data with Some n => isNaN n | None => false end = false).
  { destruct (points data) as [n|]; [|reflexivity].
    cbn [optional] in Hpts. now apply z_number_nil in Hpts. }
  unfold questionAborted in Hrefine.
  rewrite Hnan, Hnan_t, Hnan_p in Hrefine. cbn [orb] in Hrefine.
  apply check_nil in Hrefine.
  split; [lia|].
  destruct (correctIndex data) as [q| | |] eqn:Eci; try discriminate.
  cbn [isInteger] in Hint. apply Qeq_bool_iff in Hint.
  cbn [ltb] in Hmin. apply negb_false_iff, Qle_bool_iff in Hmin.
  unfold ofNat, ofZ in Hrefine. cbn [ltb] in Hrefine.
  apply negb_true_iff, Qle_bool_false_iff in Hrefine.
  set (k := Qfloor q) in *.
  assert (Hk : (0 <= k < Z.of_nat (List.length (options data)))%Z).
  { split.
    - rewrite Zle_Qle, <- Hint. exact Hmin.
    - rewrite Zlt_Qlt, <- Hint. exact Hrefine. }
  exists k. split; [exact Hint|]. split; [exact Hk|].
  destruct (nth_error (options data) (Z.to_nat k)) as [o|] eqn:Enth.
  - exists o. split; [|reflexivity].
    unfold at_index, isInteger. fold k.
    apply Qeq_bool_iff in Hint. apply Qle_bool_iff in Hmin.
    now rewrite Hint, Hmin.
  - apply nth_error_None in Enth. lia.
Qed.

End ValidationFacts.

Lemma questionSchema_correctIndex_in_bounds_witness :
  (2 <= List.length (options Examples.capital) <= 6)%nat
  /\ exists k : Z,
       correctIndex Examples.capital =n= ofZ k
       /\ (0 <= k < Z.of_nat (List.length (options Examples.capital)))%Z
       /\ exists option,
            at_index (options Examples.capital) (correctIndex Examples.capital)
            = Some option
            /\ nth_error (options Examples.capital) (Z.to_nat k) = Some option.
Proof.
  apply (@questionSchema_correctIndex_in_bounds (fun _ => true)
           Examples.capital Examples.capital).
  reflexivity.
Defined.

Example questionSchema_rejects_index_at_length :
  questionSchema (fun _ => true)
    (mkQuestion "q" "t" ["a"; "b"]%string (ofZ 2) "science" "easy" (ofZ 30)
                None None None)
  = [mkIssue ["correctIndex"%string]
             (Some "Correct index must be within options range"%string)].
Proof. vm_compute. reflexivity. Qed.

(* ================================================================== *)
(** * Random draws: lobby identifiers and the fifty-fifty powerup *)
(* ================================================================== *)

Section RandomFacts.

Lemma fair_tail (s : source) : fair s -> fair (fun n => s (S n)).
Proof. intros H n. apply H. Qed.

Lemma fair_draws (l : list Q) :
  Forall (fun r => 0 <= r /\ r < 1) l -> fair (draws l).
Proof.
  intros H n. unfold draws. revert n.
  induction H as [|r l Hr Hl IH]; intros [|n]; simpl; try lra; auto.
Qed.

(** [Math.floor(Math.random() * n)] is an index below [n]. *)
Lemma floor_draw (r : Q) (n : nat) :
  0 <= r -> r < 1 -> (1 <= n)%nat ->
  exists z : Z,
    Math_floor (Fin r * ofNat n)%js = ofZ z /\ (0 <= z < Z.of_nat n)%Z.
Proof.
  intros H0 H1 Hn. exists (Qfloor (r * inject_Z (Z.of_nat n))).
  split; [reflexivity|].
  assert (Hpos : 0 < inject_Z (Z.of_nat n)).
  { change 0 with (inject_Z 0). rewrite <- Zlt_Qlt. lia. }
  split.
  - change 0%Z with (Qfloor 0). apply Qfloor_resp_le.
    apply Qmult_le_0_compat; lra.
  - rewrite Zlt_Qlt. eapply Qle_lt_trans; [apply Qfloor_le|].
    setoid_replace (inject_Z (Z.of_nat n)) with (1 * inject_Z (Z.of_nat n)) at 2 by ring.
    now apply Qmult_lt_compat_r.
Qed.

Lemma append_assoc (a b c : string) : ((a ++ b) ++ c = a ++ (b ++ c))%string.
Proof. induction a as [|x a IH]; simpl; [reflexivity | now rewrite IH]. Qed.

Lemma append_empty_r (a : string) : (a ++ EmptyString)%string = a.
Proof. induction a as [|x a IH]; simpl; [reflexivity | now rewrite IH]. Qed.

Lemma toInteger_ofZ (z : Z) : toInteger (ofZ z) = Some z.
Proof. unfold toInteger, ofZ, inject_Z. cbn [Qnum Qden]. now rewrite Z.quot_1_r. Qed.

(** Every position below 36 of the alphabet holds an uppercase letter
    or a digit. *)
Lemma charAt_chars (z : Z) :
  (0 <= z < 36)%Z ->
  exists c, charAt chars (ofZ z) = String c EmptyString /\ upper_or_digit c = true.
Proof.
  intros Hz. unfold charAt. rewrite toInteger_ofZ.
  destruct (z <? 0)%Z eqn:E; [apply Z.ltb_lt in E; lia|].
  assert (Hk : (Z.to_nat z < 36)%nat) by lia.
  revert Hk. generalize (Z.to_nat z) as k. intros k Hk.
  do 36 (destruct k as [|k]; [eexists; split; reflexivity|]).
  lia.
Qed.

(** The loop adds [n] characters of the alphabet to [result]. *)
Lemma generateLobbyId_loop_spec (n : nat) (result : string) (s : source) :
  fair s ->
  exists suffix,
    fst (generateLobbyId_loop n result s) = (result ++ suffix)%string
    /\ String.length suffix = n
    /\ forallb upper_or_digit (list_ascii_of_string suffix) = true
    /\ fair (snd (generateLobbyId_loop n result s)).
Proof.
  revert result s. induction n as [|n IH]; intros result s Hs.
  - exists EmptyString. rewrite append_empty_r. cbn. auto.
  - cbn [generateLobbyId_loop]. unfold bind, Math_random.
    destruct (Hs 0%nat) as [H0 H1].
    destruct (@floor_draw (s 0%nat) (String.length chars) H0 H1) as (z & Hz & Hrange);
      [cbn; lia|].
    rewrite Hz.
    destruct (@charAt_chars z) as (c & Hc & Hclass); [exact Hrange|].
    rewrite Hc.
    destruct (IH (result ++ String c EmptyString)%string _ (fair_tail Hs))
      as (suffix & Hres & Hlen & Hall & Hfair).
    exists (String c suffix). rewrite Hres, append_assoc.
    split; [reflexivity|]. split; [cbn; now rewrite Hlen|].
    split; [cbn; now rewrite Hclass, Hall|]. exact Hfair.
Qed.

(** C9.  Whatever [Math.random()] returns, each draw being in [[0, 1)],
    [generateLobbyId()] is a string of 6 characters, each an uppercase
    letter or a digit, and both [isValidLobbyId] and [lobbyIdSchema]
    accept it. *)
Theorem generateLobbyId_valid (s : source) :
  fair s ->
  let id := run generateLobbyId s in
  String.length id = 6%nat
  /\ Forall (fun c => upper_or_digit c = true) (list_ascii_of_string id)
  /\ isValidLobbyId (VString id) = true
  /\ lobbyIdSchema [] id = [].
Proof.
  intros Hs id. subst id. unfold run, generateLobbyId.
  destruct (generateLobbyId_loop_spec 6 EmptyString Hs) as (suffix & Hres & Hlen & Hall & _).
  rewrite Hres. cbn [String.append].
  split; [exact Hlen|]. split; [apply Forall_forall; now apply forallb_forall|].
  unfold isValidLobbyId, lobbyIdSchema, test_repeat, test_plus.
  rewrite Hlen, Hall. split; reflexivity.
Qed.

Lemma generateLobbyId_valid_witness :
  let id := run generateLobbyId (draws [0; 1 # 2; 99 # 100; 26 # 36; 1 # 36; 35 # 36]) in
  String.length id = 6%nat
  /\ Forall (fun c => upper_or_digit c = true) (list_ascii_of_string id)
  /\ isValidLobbyId (VString id) = true
  /\ lobbyIdSchema [] id = [].
Proof.
  apply (@generateLobbyId_valid (draws [0; 1 # 2; 99 # 100; 26 # 36; 1 # 36; 35 # 36])).
  apply fair_draws. repeat constructor; discriminate.
Defined.

Example generateLobbyId_sample :
  run generateLobbyId (draws [0; 1 # 2; 99 # 100; 26 # 36; 1 # 36; 35 # 36])
  = "AS90B9"%string.
Proof. vm_compute. reflexivity. Qed.

Example isValidLobbyId_lowercase : isValidLobbyId (VString "abc123") = false.
Proof. reflexivity. Qed.

Example isValidLobbyId_number : isValidLobbyId (VNumber (ofZ 123456)) = false.
Proof. reflexivity. Qed.

(** The wrong indices are the positions of the options other than the
    correct one. *)
Lemma wrongIndices_In (n : nat) (ci e : number) (k : Z) :
  ci =n= ofZ k ->
  In e (filter (fun index => negb (index === ci)%js) (map ofNat (seq 0 n))) <->
  exists w : nat, e = ofNat w /\ (w < n)%nat /\ Z.of_nat w <> k.
Proof.
  intros Hci. rewrite filter_In, in_map_iff.
  destruct ci as [q| | |]; cbn [num_eq ofZ] in Hci; try contradiction.
  assert (Hne : forall w : nat,
             negb (ofNat w === Fin q)%js = true <-> Z.of_nat w <> k).
  { intros w. unfold ofNat, ofZ. cbn [strict_eqb].
    rewrite negb_true_iff, <- not_true_iff_false, Qeq_bool_iff, Hci.
    now rewrite inject_Z_injective. }
  split.
  - intros [(w & <- & Hw) Hneq]. apply in_seq in Hw.
    exists w. split; [reflexivity|]. split; [lia|]. now apply Hne.
  - intros (w & -> & Hw & Hneq). split; [|now apply Hne].
    exists w. split; [reflexivity|]. apply in_seq. lia.
Qed.

(** Sorting the correct index and a wrong index puts the smaller one
    first. *)
Lemma sort_pair (ci : number) (k : Z) (w : nat) :
  ci =n= ofZ k ->
  sort_sparse (fun a b => (a - b)%js) [Some ci; Some (ofNat w)]
  = if (Z.of_nat w <? k)%Z then [Some (ofNat w); Some ci]
    else [Some ci; Some (ofNat w)].
Proof.
  intros Hci. destruct ci as [q| | |]; cbn [num_eq ofZ] in Hci; try contradiction.
  unfold sort_sparse, ofNat, ofZ.
  cbn [defined flat_map app undefineds filter sort sort_insert sub neg add gtb ltb].
  destruct (Z.of_nat w <? k)%Z eqn:E.
  - apply Z.ltb_lt in E. rewrite Zlt_Qlt, <- Hci in E.
    assert (H : Qle_bool (q + - inject_Z (Z.of_nat w)) 0 = false).
    { apply Qle_bool_false_iff. lra. }
    now rewrite H.
  - apply Z.ltb_ge in E. rewrite Zle_Qle, <- Hci in E.
    assert (H : Qle_bool (q + - inject_Z (Z.of_nat w)) 0 = true).
    { apply Qle_bool_iff. lra. }
    now rewrite H.
Qed.

(** C10.  For a question with at least 2 options and a correct index
    [k] inside the options, whatever [Math.random()] returns in [[0, 1)],
    [applyFiftyFifty] returns two indices in ascending order: the correct
    index and one wrong index [w], different from [k] and inside the
    options. *)
Theorem applyFiftyFifty_two_indices (question : Question) (k : Z) (s : source) :
  fair s ->
  (2 <= List.length (options question))%nat ->
  correctIndex question =n= ofZ k ->
  (0 <= k < Z.of_nat (List.length (options question)))%Z ->
  exists w : nat,
    (w < List.length (options question))%nat
    /\ Z.of_nat w <> k
    /\ run (applyFiftyFifty question) s
       = if (Z.of_nat w <? k)%Z
         then [Some (ofNat w); Some (correctIndex question)]
         else [Some (correctIndex question); Some (ofNat w)].
Proof.
  intros Hs Hlen Hci Hk.
  unfold run, applyFiftyFifty, getRandomElement, bind, Math_random, ret, indices.
  cbn [fst].
  set (wrongIndices :=
         filter (fun index => negb (index === correctIndex question)%js)
                (map ofNat (seq 0 (List.length (options question))))).
  assert (Hnonempty : (1 <= List.length wrongIndices)%nat).
  { assert (Hin : exists e, In e wrongIndices).
    { destruct (Z.eq_dec k 0) as [->|Hk0].
      - exists (ofNat 1). apply (@wrongIndices_In _ _ _ _ Hci).
        exists 1%nat. repeat split; [lia | discriminate].
      - exists (ofNat 0). apply (@wrongIndices_In _ _ _ _ Hci).
        exists 0%nat. repeat split; [lia | cbn; lia]. }
    destruct Hin as [e He]. destruct wrongIndices; [contradiction | cbn; lia]. }
  destruct (Hs 0%nat) as [H0 H1].
  destruct (floor_draw H0 H1 Hnonempty) as (z & Hz & Hrange).
  rewrite Hz, at_index_ofZ by lia.
  destruct (nth_error wrongIndices (Z.to_nat z)) as [e|] eqn:Enth;
    [|apply nth_error_None in Enth; lia].
  apply nth_error_In in Enth.
  apply (@wrongIndices_In _ _ _ _ Hci) in Enth. destruct Enth as (w & -> & Hw & Hneq).
  exists w. split; [exact Hw|]. split; [exact Hneq|].
  now apply sort_pair.
Qed.

Lemma applyFiftyFifty_two_indices_witness :
  exists w : nat,
    (w < List.length (options Examples.capital))%nat
    /\ Z.of_nat w <> 2%Z
    /\ run (applyFiftyFifty Examples.capital) (draws [9 # 10])
       = if (Z.of_nat w <? 2)%Z
         then [Some (ofNat w); Some (correctIndex Examples.capital)]
         else [Some (correctIndex Examples.capital); Some (ofNat w)].
Proof.
  apply (@applyFiftyFifty_two_indices Examples.capital 2 (draws [9 # 10])).
  - apply fair_draws. repeat constructor; discriminate.
  - cbn. lia.
  - reflexivity.
  - cbn. lia.
Defined.

Example applyFiftyFifty_sample :
  run (applyFiftyFifty Examples.capital) (draws [9 # 10])
  = [Some (ofNat 2); Some (ofNat 3)].
Proof. vm_compute. reflexivity. Qed.

Example applyFiftyFifty_sample_low :
  run (applyFiftyFifty Examples.capital) (draws [1 # 10])
  = [Some (ofNat 0); Some (ofNat 2)].
Proof. vm_compute. reflexivity. Qed.

End RandomFacts.

(* ================================================================== *)
(** * Further properties of scoring, ranks and lobby identifiers *)
(* ================================================================== *)

Section MoreScoringFacts.

Open Scope Q_scope.

(** X1.  For a response time that is not negative, a positive time limit
    and a speed bonus that is not negative, the score lies between
    [basePoints] and [basePoints + maxSpeedBonus]; an immediate answer
    earns [basePoints + floor(maxSpeedBonus)]. *)
Theorem calculateScore_bounds (basePoints responseTime timeLimit maxSpeedBonus : Q) :
  0 <= responseTime -> 0 < timeLimit -> 0 <= maxSpeedBonus ->
  (Fin basePoints
   <= calculateScore (Fin basePoints) (Fin responseTime) (Fin timeLimit)
        (Fin maxSpeedBonus))%js = true
  /\ (calculateScore (Fin basePoints) (Fin responseTime) (Fin timeLimit)
        (Fin maxSpeedBonus)
      <= Fin basePoints + Fin maxSpeedBonus)%js = true
  /\ (responseTime == 0 ->
      calculateScore (Fin basePoints) (Fin responseTime) (Fin timeLimit)
        (Fin maxSpeedBonus)
      =n= Fin (basePoints + inject_Z (Qfloor maxSpeedBonus))).
Proof.
  intros Hr HT Hm.
  assert (HT0 : ~ timeLimit == 0) by lra.
  pose proof (calculateScore_Fin basePoints responseTime maxSpeedBonus HT0) as Hcode.
  set (ratio := Qmax 0 ((timeLimit - responseTime) / timeLimit)) in *.
  assert (H0 : 0 <= ratio) by apply Q.le_max_l.
  assert (H1 : ratio <= 1).
  { apply Q.max_lub; [lra | now apply ratio_le_1]. }
  assert (Hlo : (0 <= Qfloor (ratio * maxSpeedBonus))%Z).
  { change 0%Z with (Qfloor 0). apply Qfloor_resp_le. now apply Qmult_le_0_compat. }
  assert (Hhi : inject_Z (Qfloor (ratio * maxSpeedBonus)) <= maxSpeedBonus).
  { eapply Qle_trans; [apply Qfloor_le|].
    setoid_replace maxSpeedBonus with (1 * maxSpeedBonus) at 2 by ring.
    now apply Qmult_le_compat_r. }
  rewrite Zle_Qle in Hlo.
  split; [|split].
  - eapply leb_of_Fin; [apply num_eq_refl | exact Hcode |]. change (inject_Z 0) with 0 in Hlo. lra.
  - eapply leb_of_Fin; [exact Hcode | apply num_eq_refl |]. lra.
  - intros Hz. eapply num_eq_trans; [exact Hcode|]. cbn [num_eq].
    assert (Hone : ratio == 1).
    { unfold ratio. rewrite Hz. setoid_replace ((timeLimit - 0) / timeLimit) with 1
        by (field; exact HT0).
      apply Q.max_r. lra. }
    rewrite Hone. now rewrite Qmult_1_l.
Qed.

Lemma calculateScore_bounds_witness :
  (Fin 100 <= calculateScore (Fin 100) (Fin 3) (Fin 10) (Fin 50))%js = true
  /\ (calculateScore (Fin 100) (Fin 3) (Fin 10) (Fin 50) <= Fin 100 + Fin 50)%js = true
  /\ (3 == 0 ->
      calculateScore (Fin 100) (Fin 3) (Fin 10) (Fin 50)
      =n= Fin (100 + inject_Z (Qfloor 50))).
Proof. apply (@calculateScore_bounds 100 3 10 50); lra. Defined.

(** The multiplier on finite arguments, read over the rationals. *)
Lemma calculateStreakMultiplier_Fin (streak f M : Q) :
  calculateStreakMultiplier (Fin streak) (Fin f) (Fin M)
  =n= Fin (if Qle_bool streak 1 then 1 else Qmin (1 + (streak - 1) * (f - 1)) M).
Proof.
  unfold calculateStreakMultiplier. cbn [leb sub neg add mul].
  destruct (Qle_bool streak 1); [reflexivity|]. exact (Math_min_Fin _ _).
Qed.

(** X2.  With a factor and a cap of at least 1, the streak multiplier is
    never below 1 nor above the cap, whatever the streak, and it does not
    decrease when the streak grows. *)
Theorem calculateStreakMultiplier_bounds (s1 s2 streakFactor maxStreakMultiplier : Q) :
  1 <= streakFactor -> 1 <= maxStreakMultiplier -> s1 <= s2 ->
  (Fin 1 <= calculateStreakMultiplier (Fin s1) (Fin streakFactor) (Fin maxStreakMultiplier))%js
  = true
  /\ (calculateStreakMultiplier (Fin s1) (Fin streakFactor) (Fin maxStreakMultiplier)
      <= Fin maxStreakMultiplier)%js = true
  /\ (calculateStreakMultiplier (Fin s1) (Fin streakFactor) (Fin maxStreakMultiplier)
      <= calculateStreakMultiplier (Fin s2) (Fin streakFactor) (Fin maxStreakMultiplier))%js
     = true.
Proof.
  intros Hf HM Hs.
  pose proof (calculateStreakMultiplier_Fin s1 streakFactor maxStreakMultiplier) as H1.
  pose proof (calculateStreakMultiplier_Fin s2 streakFactor maxStreakMultiplier) as H2.
  assert (Hprod : forall s, 1 < s -> 0 <= (s - 1) * (streakFactor - 1)).
  { intros s Hgt. apply Qmult_le_0_compat; lra. }
  split; [|split].
  - eapply leb_of_Fin; [apply num_eq_refl | exact H1 |].
    destruct (Qle_bool s1 1) eqn:E; [lra|].
    apply Qle_bool_false_iff in E. apply Q.min_glb; [|exact HM].
    specialize (Hprod s1 E). lra.
  - eapply leb_of_Fin; [exact H1 | apply num_eq_refl |].
    destruct (Qle_bool s1 1); [exact HM | apply Q.le_min_r].
  - eapply leb_of_Fin; [exact H1 | exact H2 |].
    destruct (Qle_bool s1 1) eqn:E1, (Qle_bool s2 1) eqn:E2.
    + lra.
    + apply Qle_bool_false_iff in E2. apply Q.min_glb; [|exact HM].
      specialize (Hprod s2 E2). lra.
    + apply Qle_bool_iff in E2. apply Qle_bool_false_iff in E1. lra.
    + apply Q.min_le_compat_r. apply Qplus_le_r.
      apply Qmult_le_compat_r; lra.
Qed.

Lemma calculateStreakMultiplier_bounds_witness :
  (Fin 1 <= calculateStreakMultiplier (Fin 0) (Fin (11 # 10)) (Fin 2))%js = true
  /\ (calculateStreakMultiplier (Fin 0) (Fin (11 # 10)) (Fin 2) <= Fin 2)%js = true
  /\ (calculateStreakMultiplier (Fin 0) (Fin (11 # 10)) (Fin 2)
      <= calculateStreakMultiplier (Fin 30) (Fin (11 # 10)) (Fin 2))%js = true.
Proof. apply (@calculateStreakMultiplier_bounds 0 30 (11 # 10) 2); lra. Defined.

End MoreScoringFacts.

Section MoreRankingFacts.

Lemma findIndex_from_none {A} (pred : A -> bool) (l : list A) (i : Z) :
  Forall (fun x => pred x = false) l -> findIndex_from pred l i = (-1)%Z.
Proof.
  intros H. revert i. induction H as [|x l Hx Hl IH]; intros i; cbn [findIndex_from].
  - reflexivity.
  - rewrite Hx. apply IH.
Qed.

Lemma findIndex_from_app {A} (pred : A -> bool) (l1 l2 : list A) (x : A) (i : Z) :
  Forall (fun y => pred y = false) l1 -> pred x = true ->
  findIndex_from pred (l1 ++ x :: l2) i = (i + Z.of_nat (List.length l1))%Z.
Proof.
  intros H Hx. revert i. induction H as [|y l1 Hy Hl IH]; intros i; cbn.
  - rewrite Hx. lia.
  - rewrite Hy, IH. lia.
Qed.

(** X3.  A player that is not in the list has rank 0, whatever the
    scores: [findIndex] gives -1. *)
Theorem getPlayerRank_unknown (players : list Player) (playerId : string) :
  ~ In playerId (map player_id players) ->
  getPlayerRank players playerId = 0%Z.
Proof.
  intros Hnot. unfold getPlayerRank, findIndex.
  rewrite findIndex_from_none; [reflexivity|].
  apply Forall_forall. intros p Hp.
  apply (Permutation_in _ (Permutation_sym (sort_perm byScore players))) in Hp.
  apply not_true_is_false. intros E. apply String.eqb_eq in E.
  apply Hnot. rewrite <- E. now apply in_map.
Qed.

Lemma getPlayerRank_unknown_witness :
  getPlayerRank [Examples.dave; Examples.carol; Examples.alice 2] "zoe" = 0%Z.
Proof.
  apply (@getPlayerRank_unknown [Examples.dave; Examples.carol; Examples.alice 2] "zoe").
  cbn. intros [H|[H|[H|[]]]]; discriminate.
Defined.

(** In a list with distinct identifiers, the rank of a member is its
    position in the ranking. *)
Lemma getPlayerRank_position (players l1 l2 : list Player) (p : Player) :
  NoDup (map player_id players) ->
  sort byScore players = l1 ++ p :: l2 ->
  getPlayerRank players (player_id p) = (Z.of_nat (List.length l1) + 1)%Z.
Proof.
  intros Hnd Hsplit. unfold getPlayerRank, findIndex. rewrite Hsplit.
  rewrite findIndex_from_app; [lia| |apply String.eqb_refl].
  assert (Hnd' : NoDup (map player_id (l1 ++ p :: l2))).
  { rewrite <- Hsplit.
    eapply Permutation_NoDup; [|exact Hnd].
    apply Permutation_map, sort_perm. }
  rewrite map_app in Hnd'. cbn [map] in Hnd'.
  apply NoDup_remove_2 in Hnd'.
  apply Forall_forall. intros y Hy.
  apply not_true_is_false. intros E. apply String.eqb_eq in E.
  apply Hnd'. apply in_or_app. left. rewrite <- E. now apply in_map.
Qed.

Lemma StronglySorted_app_r {A} (R : A -> A -> Prop) (l1 l2 : list A) :
  StronglySorted R (l1 ++ l2) -> StronglySorted R l2.
Proof.
  induction l1 as [|a l1 IH]; cbn [app]; [auto|].
  intros H. apply StronglySorted_inv in H. now apply IH.
Qed.

(** X4.  In a list with distinct identifiers and scores that are
    numbers, a player with a strictly higher score has a strictly better
    (smaller) rank. *)
Theorem getPlayerRank_higher_score_first (players : list Player) (p q : Player) :
  NoDup (map player_id players) ->
  Forall (fun r => isNaN (score r) = false) players ->
  In p players -> In q players ->
  (score p > score q)%js = true ->
  (getPlayerRank players (player_id p) < getPlayerRank players (player_id q))%Z.
Proof.
  intros Hnd Hnum Hp Hq Hgt.
  pose proof (sort_perm byScore players) as Hperm.
  pose proof (sort_sorted Hnum) as Hsorted.
  assert (Hp' : In p (sort byScore players)) by (eapply Permutation_in; eassumption).
  destruct (in_split _ _ Hp') as (l1 & l2 & Hsplit).
  assert (Hq' : In q (l1 ++ p :: l2)).
  { rewrite <- Hsplit. eapply Permutation_in; eassumption. }
  rewrite (@getPlayerRank_position _ _ _ _ Hnd Hsplit).
  rewrite Hsplit in Hsorted.
  assert (Hstrict : forall a b, (score a > score b)%js = true ->
                                (score b >= score a)%js = true -> False).
  { intros a b. unfold gtb, geb.
    destruct (score a) as [x| | |], (score b) as [y| | |]; cbn;
      try discriminate.
    rewrite negb_true_iff, Qle_bool_false_iff, Qle_bool_iff. intros; lra. }
  apply in_app_or in Hq'. destruct Hq' as [Hq1 | [Heq | Hq2]].
  - exfalso. destruct (in_split _ _ Hq1) as (m1 & m2 & ->).
    rewrite <- app_assoc in Hsorted. cbn [app] in Hsorted.
    apply StronglySorted_app_r in Hsorted.
    apply StronglySorted_inv in Hsorted. destruct Hsorted as [_ Hall].
    rewrite Forall_forall in Hall.
    apply (Hstrict p q Hgt). apply Hall. apply in_or_app. right. now left.
  - exfalso. subst q. apply (Hstrict p p Hgt).
    unfold gtb in Hgt. unfold geb. now apply ltb_leb.
  - destruct (in_split _ _ Hq2) as (m1 & m2 & ->).
    replace (l1 ++ p :: m1 ++ q :: m2) with ((l1 ++ p :: m1) ++ q :: m2) in Hsplit
      by (rewrite <- app_assoc; reflexivity).
    rewrite (@getPlayerRank_position _ _ _ _ Hnd Hsplit).
    rewrite length_app. cbn [List.length]. lia.
Qed.

Lemma getPlayerRank_higher_score_first_witness :
  (getPlayerRank [Examples.dave; Examples.alice 2; Examples.carol] "carol"
   < getPlayerRank [Examples.dave; Examples.alice 2; Examples.carol] "dave")%Z.
Proof.
  apply (@getPlayerRank_higher_score_first
           [Examples.dave; Examples.alice 2; Examples.carol]
           Examples.carol Examples.dave).
  - cbn. repeat constructor; cbn; intuition discriminate.
  - repeat constructor.
  - cbn. auto.
  - cbn. auto.
  - reflexivity.
Defined.

End MoreRankingFacts.

Section MoreIdentifierFacts.

(** X5.  The two validators of lobby identifiers agree on every string:
    [isValidLobbyId] accepts it exactly when [lobbyIdSchema] raises no
    issue; and [isValidLobbyId] rejects every value that is not a
    string. *)
Theorem isValidLobbyId_lobbyIdSchema (p : list string) (v : value) :
  isValidLobbyId v = true
  <-> exists s, v = VString s /\ lobbyIdSchema p s = [].
Proof.
  unfold isValidLobbyId. split.
  - destruct v as [| |b|n|s]; cbn; try discriminate.
    unfold test_repeat, lobbyIdSchema, test_plus.
    intros H. apply andb_true_iff in H. destruct H as [Hlen Hall].
    exists s. split; [reflexivity|]. rewrite Hlen, Hall.
    apply Nat.eqb_eq in Hlen. rewrite Hlen. reflexivity.
  - intros (s & -> & Hnil). cbn.
    unfold lobbyIdSchema in Hnil. apply app_eq_nil in Hnil. destruct Hnil as [H1 H2].
    apply check_nil in H1. apply check_nil in H2.
    unfold test_plus in H2. apply andb_true_iff in H2.
    unfold test_repeat. rewrite H1. exact (proj2 H2).
Qed.

Lemma at_index_nil {A} (k : number) : at_index (@nil A) k = None.
Proof.
  unfold at_index. destruct k as [q| | |]; try reflexivity.
  destruct (isInteger (Fin q) && Qle_bool 0 q); [|reflexivity].
  now destruct (Z.to_nat (Qfloor q)).
Qed.

(** X6.  When the question has no wrong option (no option at all, or a
    single option that is the correct one), [applyFiftyFifty] returns the
    correct index followed by [undefined], whatever [Math.random()]
    returns. *)
Theorem applyFiftyFifty_no_wrong_option (question : Question) (s : source) :
  (List.length (options question) <= 1)%nat ->
  (List.length (options question) = 1%nat -> correctIndex question =n= ofZ 0) ->
  run (applyFiftyFifty question) s = [Some (correctIndex question); None].
Proof.
  intros Hlen Hci.
  unfold run, applyFiftyFifty, getRandomElement, bind, Math_random, ret, indices.
  cbn [fst].
  assert (Hnil : filter (fun index => negb (index === correctIndex question)%js)
                        (map ofNat (seq 0 (List.length (options question)))) = []).
  { destruct (List.length (options question)) as [|[|n]] eqn:E; [reflexivity| |lia].
    specialize (Hci eq_refl). cbn [seq map filter].
    destruct (correctIndex question) as [q| | |]; cbn [num_eq] in Hci; try contradiction.
    assert (H : (ofNat 0 === Fin q)%js = true).
    { unfold ofNat, ofZ. cbn [strict_eqb]. apply Qeq_bool_iff. symmetry. exact Hci. }
    now rewrite H. }
  rewrite Hnil, at_index_nil. reflexivity.
Qed.

Lemma applyFiftyFifty_no_wrong_option_witness :
  run (applyFiftyFifty
         (mkQuestion "q" "True?" ["yes"%string] (ofZ 0) "science" "easy" (ofZ 30)
                     None None None))
      (draws [1 # 2])
  = [Some (ofZ 0); None].
Proof.
  apply (@applyFiftyFifty_no_wrong_option
           (mkQuestion "q" "True?" ["yes"%string] (ofZ 0) "science" "easy" (ofZ 30)
                       None None None)
           (draws [1 # 2])).
  - cbn. lia.
  - reflexivity.
Defined.

End MoreIdentifierFacts.

(* ================================================================== *)
(** * Time and number utilities *)
(* ================================================================== *)

Section TimeFacts.

Open Scope Q_scope.






(** A timer can show 0 remaining seconds before it is expired: the last
    second is rounded down. *)
Example getRemaining_zero_not_expired :
  getRemaining (createTimer (Fin 30) (Fin 1000)) (Fin 30500) =n= Fin 0
  /\ isExpired (createTimer (Fin 30) (Fin 1000)) (Fin 30500) = false.
Proof. split; vm_compute; reflexivity. Qed.



End TimeFacts.

Section MathFacts.

Open Scope Q_scope.

Lemma clamp_Fin (v lo hi : Q) :
  clamp (Fin v) (Fin lo) (Fin hi) =n= Fin (Qmin (Qmax v lo) hi).
Proof.
  unfold clamp. generalize (Math_max_Fin v lo).
  destruct (Math_max (Fin v) (Fin lo)) as [y| | |]; cbn [num_eq]; try tauto.
  intros Hy. eapply num_eq_trans; [apply Math_min_Fin|]. cbn [num_eq].
  now rewrite Hy.
Qed.

(** X10.  With [min <= max], [clamp] returns a value between [min] and
    [max], and returns the value itself when it already lies there. *)
Theorem clamp_in_range (value min max : Q) :
  min <= max ->
  (Fin min <= clamp (Fin value) (Fin min) (Fin max))%js = true
  /\ (clamp (Fin value) (Fin min) (Fin max) <= Fin max)%js = true
  /\ (min <= value <= max -> clamp (Fin value) (Fin min) (Fin max) =n= Fin value).
Proof.
  intros Hmm. pose proof (clamp_Fin value min max) as Hc.
  split; [|split].
  - eapply leb_of_Fin; [apply num_eq_refl | exact Hc |].
    apply Q.min_glb; [apply Q.le_max_r | exact Hmm].
  - eapply leb_of_Fin; [exact Hc | apply num_eq_refl |]. apply Q.le_min_r.
  - intros [Hlo Hhi]. eapply num_eq_trans; [exact Hc|]. cbn [num_eq].
    rewrite (Q.max_l _ _ Hlo). now apply Q.min_l.
Qed.

Lemma clamp_in_range_witness :
  (Fin 0 <= clamp (Fin 250) (Fin 0) (Fin 100))%js = true
  /\ (clamp (Fin 250) (Fin 0) (Fin 100) <= Fin 100)%js = true
  /\ (0 <= 250 <= 100 -> clamp (Fin 250) (Fin 0) (Fin 100) =n= Fin 250).
Proof. apply (@clamp_in_range 250 0 100). discriminate. Defined.

(** With the bounds in the wrong order, [clamp] returns [max]. *)
Example clamp_swapped_bounds :
  clamp (Fin 5) (Fin 10) (Fin 0) =n= Fin 0.
Proof. vm_compute. reflexivity. Qed.



End MathFacts.

(* ================================================================== *)
(** * Array utilities *)
(* ================================================================== *)

Section ArrayFacts.

Context {A : Type}.

Lemma set_nth_length (l : list A) (n : nat) (v : A) :
  List.length (set_nth l n v) = List.length l.
Proof.
  revert n. induction l as [|a l IH]; intros [|n]; cbn; auto.
Qed.

Lemma set_nth_middle (l1 l2 : list A) (x v : A) :
  set_nth (l1 ++ x :: l2) (List.length l1) v = l1 ++ v :: l2.
Proof. induction l1 as [|a l1 IH]; cbn; [reflexivity | now rewrite IH]. Qed.

Lemma set_nth_map_Some (l : list A) (n : nat) (v : A) :
  set_nth (map Some l) n (Some v) = map Some (set_nth l n v).
Proof.
  revert n. induction l as [|a l IH]; intros [|n]; cbn; auto. now rewrite IH.
Qed.

(** Exchanging two elements of a list gives a permutation of it. *)
Lemma set_nth_swap (l : list A) (i j : nat) (a b : A) :
  (j <= i)%nat -> nth_error l i = Some a -> nth_error l j = Some b ->
  Permutation l (set_nth (set_nth l i b) j a).
Proof.
  intros Hji Hi Hj.
  destruct (Nat.eq_dec j i) as [->|Hne].
  - assert (a = b) by congruence. subst b.
    destruct (nth_error_split _ _ Hi) as (l1 & l2 & -> & <-).
    rewrite !set_nth_middle. reflexivity.
  - destruct (nth_error_split _ _ Hj) as (l1 & l2 & -> & <-).
    rewrite nth_error_app2 in Hi by lia.
    replace (i - List.length l1)%nat with (S (i - List.length l1 - 1)) in Hi by lia.
    cbn [nth_error] in Hi.
    destruct (nth_error_split _ _ Hi) as (m1 & m2 & -> & Hlen).
    replace i with (List.length (l1 ++ b :: m1))
      by (rewrite length_app; cbn [List.length]; lia).
    replace (l1 ++ b :: m1 ++ a :: m2) with ((l1 ++ b :: m1) ++ a :: m2)
      by (rewrite <- app_assoc; reflexivity).
    rewrite set_nth_middle. rewrite <- !app_assoc. cbn [app].
    rewrite set_nth_middle.
    apply Permutation_app_head.
    rewrite <- !Permutation_middle. apply perm_swap.
Qed.

Lemma at_index_ofNat {B} (array : list B) (n : nat) :
  at_index array (ofNat n) = nth_error array n.
Proof. unfold ofNat. rewrite at_index_ofZ by lia. now rewrite Nat2Z.id. Qed.

Lemma write_ofZ (array : list (option A)) (z : Z) (v : option A) :
  (0 <= z < Z.of_nat (List.length array))%Z ->
  write array (ofZ z) v = set_nth array (Z.to_nat z) v.
Proof.
  intros Hz. unfold write, ofZ, isInteger. rewrite Qfloor_Z.
  assert (H1 : Qeq_bool (inject_Z z) (inject_Z z) = true) by now apply Qeq_bool_iff.
  assert (H2 : Qle_bool 0 (inject_Z z) = true).
  { apply Qle_bool_iff. change 0%Q with (inject_Z 0). rewrite <- Zle_Qle. lia. }
  rewrite H1, H2. cbn [andb].
  assert (H3 : (Z.to_nat z <? List.length array)%nat = true) by (apply Nat.ltb_lt; lia).
  now rewrite H3.
Qed.

(** [Math.floor(Math.random() * w)] is an index below [w] for a whole
    number [w >= 1], however [w] was computed. *)
Lemma floor_draw_Q (r w : Q) (n : nat) :
  0 <= r -> r < 1 -> w == inject_Z (Z.of_nat n) -> (1 <= n)%nat ->
  exists z : Z, Math_floor (Fin r * Fin w)%js = ofZ z /\ (0 <= z < Z.of_nat n)%Z.
Proof.
  intros H0 H1 Hw Hn. exists (Qfloor (r * w)). split; [reflexivity|].
  assert (Hpos : 0 < w).
  { rewrite Hw. change 0 with (inject_Z 0). rewrite <- Zlt_Qlt. lia. }
  split.
  - change 0%Z with (Qfloor 0). apply Qfloor_resp_le. apply Qmult_le_0_compat; lra.
  - rewrite Zlt_Qlt, <- Hw. eapply Qle_lt_trans; [apply Qfloor_le|].
    setoid_replace w with (1 * w) at 2 by ring.
    now apply Qmult_lt_compat_r.
Qed.

Lemma shuffleArray_loop_perm (i : nat) (l : list A) (s : source) :
  fair s -> (i < List.length l)%nat \/ i = 0%nat ->
  exists l', fst (shuffleArray_loop i (map Some l) s) = map Some l'
             /\ Permutation l l'.
Proof.
  revert l s. induction i as [|i IH]; intros l s Hs Hi.
  - exists l. split; reflexivity.
  - destruct Hi as [Hi|Hi]; [|discriminate].
    cbn [shuffleArray_loop]. unfold bind, Math_random.
    destruct (Hs 0%nat) as [H0 H1].
    assert (Hw : inject_Z (Z.of_nat (S i)) + 1 == inject_Z (Z.of_nat (S (S i)))).
    { rewrite (Nat2Z.inj_succ (S i)). unfold Z.succ. rewrite inject_Z_plus. reflexivity. }
    destruct (@floor_draw_Q (s 0%nat) _ (S (S i)) H0 H1 Hw) as (z & Hz & Hrange); [lia|].
    change (ofNat (S i) + Fin 1)%js with (Fin (inject_Z (Z.of_nat (S i)) + 1)).
    rewrite Hz.
    destruct (nth_error l (S i)) as [a|] eqn:Ea; [|apply nth_error_None in Ea; lia].
    destruct (nth_error l (Z.to_nat z)) as [b|] eqn:Eb;
      [|apply nth_error_None in Eb; lia].
    assert (Rj : read (map Some l) (ofZ z) = Some b).
    { unfold read. rewrite at_index_ofZ by lia. now rewrite nth_error_map, Eb. }
    assert (Ri : read (map Some l) (ofNat (S i)) = Some a).
    { unfold read. now rewrite at_index_ofNat, nth_error_map, Ea. }
    rewrite Rj, Ri.
    change (ofNat (S i)) with (ofZ (Z.of_nat (S i))).
    rewrite (@write_ofZ (map Some l) (Z.of_nat (S i)) (Some b))
      by (rewrite length_map; lia).
    rewrite Nat2Z.id, set_nth_map_Some.
    rewrite write_ofZ by (rewrite length_map, set_nth_length; lia).
    rewrite set_nth_map_Some.
    assert (Hperm : Permutation l (set_nth (set_nth l (S i) b) (Z.to_nat z) a)).
    { apply set_nth_swap; [lia | exact Ea | exact Eb]. }
    destruct (IH (set_nth (set_nth l (S i) b) (Z.to_nat z) a) _ (fair_tail Hs))
      as (l' & Hl' & Hp').
    { left. rewrite !set_nth_length. lia. }
    exists l'. split; [exact Hl'|]. now rewrite Hperm.
Qed.

Lemma shuffleArray_run (array : list A) (s : source) :
  fair s ->
  exists shuffled,
    fst (shuffleArray array s) = map Some shuffled /\ Permutation array shuffled.
Proof.
  intros Hs. unfold shuffleArray. apply shuffleArray_loop_perm; [exact Hs|].
  rewrite length_map. destruct array; cbn; [right; reflexivity | left; lia].
Qed.

(** X12.  Whatever [Math.random()] returns in [[0, 1)], [shuffleArray]
    returns the elements of the array in some order: nothing is lost,
    nothing is repeated, and no position is left [undefined]. *)
Theorem shuffleArray_permutation (array : list A) (s : source) :
  fair s ->
  exists shuffled,
    run (shuffleArray array) s = map Some shuffled /\ Permutation array shuffled.
Proof.
  intros Hs. unfold run, shuffleArray. apply shuffleArray_loop_perm; [exact Hs|].
  rewrite length_map. destruct array; cbn; [right; reflexivity | left; lia].
Qed.

Lemma relative_ofZ (len : nat) (z : Z) :
  relative len (ofZ z)
  = if (z <? 0)%Z then Z.to_nat (Z.max (Z.of_nat len + z) 0)
    else Z.to_nat (Z.min z (Z.of_nat len)).
Proof. unfold relative. rewrite toInteger_ofZ. reflexivity. Qed.

(** X13.  [getRandomElements] returns the first elements of a shuffle of
    the array, so no element is taken more often than the array holds it:
    [min(count, length)] of them for a count that is not negative.  A
    negative count is taken from the end by [slice], and
    [max(length + count, 0)] elements are returned. *)
Theorem getRandomElements_prefix (array : list A) (count : Z) (s : source) :
  fair s ->
  exists shuffled,
    Permutation array shuffled
    /\ run (getRandomElements array (ofZ count)) s
       = map Some
           (firstn (if (count <? 0)%Z
                    then Z.to_nat (Z.max (Z.of_nat (List.length array) + count) 0)
                    else Z.to_nat (Z.min count (Z.of_nat (List.length array))))
                   shuffled).
Proof.
  intros Hs. destruct (shuffleArray_run array Hs) as (shuffled & Hrun & Hperm).
  exists shuffled. split; [exact Hperm|].
  unfold run, getRandomElements, bind, ret in *.
  destruct (shuffleArray array s) as [sh s']. cbn [fst] in *. subst sh.
  unfold slice. rewrite length_map, <- (Permutation_length Hperm).
  assert (Hmin : Math_min (ofZ count) (ofNat (List.length array))
                 = ofZ (Z.min count (Z.of_nat (List.length array)))).
  { unfold Math_min, ofNat, ofZ. cbn [leb].
    destruct (Qle_bool (inject_Z count) (inject_Z (Z.of_nat (List.length array)))) eqn:E.
    - apply Qle_bool_iff in E. rewrite <- Zle_Qle in E. now rewrite Z.min_l.
    - apply Qle_bool_false_iff in E. rewrite <- Zlt_Qlt in E. rewrite Z.min_r by lia.
      reflexivity. }
  rewrite Hmin.
  assert (H0 : relative (List.length array) (Fin 0) = 0%nat).
  { change (Fin 0) with (ofZ 0). rewrite relative_ofZ. cbn [Z.ltb Z.compare]. lia. }
  rewrite H0, relative_ofZ. cbn [skipn].
  rewrite Nat.sub_0_r, firstn_map. f_equal. f_equal.
  destruct (count <? 0)%Z eqn:Ec.
  - apply Z.ltb_lt in Ec.
    assert (Hm : (Z.min count (Z.of_nat (List.length array)) <? 0)%Z = true)
      by (apply Z.ltb_lt; lia).
    rewrite Hm. rewrite Z.min_l by lia. reflexivity.
  - apply Z.ltb_ge in Ec.
    assert (Hm : (Z.min count (Z.of_nat (List.length array)) <? 0)%Z = false)
      by (apply Z.ltb_ge; lia).
    rewrite Hm. f_equal. lia.
Qed.

End ArrayFacts.

Lemma shuffleArray_permutation_witness :
  exists shuffled,
    run (shuffleArray [1; 2; 3; 4]%nat) (draws [1 # 2; 9 # 10; 0]) = map Some shuffled
    /\ Permutation [1; 2; 3; 4]%nat shuffled.
Proof.
  apply (@shuffleArray_permutation nat [1; 2; 3; 4]%nat (draws [1 # 2; 9 # 10; 0])).
  apply fair_draws. repeat constructor; discriminate.
Defined.

Example shuffleArray_sample :
  run (shuffleArray [1; 2; 3; 4]%nat) (draws [1 # 2; 9 # 10; 0])
  = [Some 2; Some 1; Some 4; Some 3]%nat.
Proof. vm_compute. reflexivity. Qed.

Lemma getRandomElements_prefix_witness :
  exists shuffled,
    Permutation [1; 2; 3; 4]%nat shuffled
    /\ run (getRandomElements [1; 2; 3; 4]%nat (ofZ (-1))) (draws [1 # 2; 9 # 10; 0])
       = map Some (firstn 3 shuffled).
Proof.
  apply (@getRandomElements_prefix nat [1; 2; 3; 4]%nat (-1) (draws [1 # 2; 9 # 10; 0])).
  apply fair_draws. repeat constructor; discriminate.
Defined.

Section ChunkFacts.

Open Scope list_scope.

Context {A : Type}.

Lemma toInteger_Qeq (q : Q) (z : Z) :
  q == inject_Z z -> toInteger (Fin q) = Some z.
Proof.
  unfold Qeq, inject_Z, toInteger. cbn [Qnum Qden]. intros H.
  rewrite Z.mul_1_r in H. rewrite H. f_equal. apply Z.quot_mul. discriminate.
Qed.

Lemma relative_nat (len n : nat) (q : Q) :
  q == inject_Z (Z.of_nat n) -> relative len (Fin q) = Nat.min n len.
Proof.
  intros Hq. unfold relative. rewrite (@toInteger_Qeq _ _ Hq).
  destruct (Z.of_nat n <? 0)%Z eqn:E; [apply Z.ltb_lt in E; lia|]. lia.
Qed.

Lemma ltb_length (q : Q) (off len : nat) :
  q == inject_Z (Z.of_nat off) ->
  (Fin q < ofNat len)%js = (off <? len)%nat.
Proof.
  intros Hq. unfold ofNat, ofZ. cbn [ltb].
  destruct (off <? len)%nat eqn:E.
  - apply Nat.ltb_lt in E. apply negb_true_iff, Qle_bool_false_iff.
    rewrite Hq, <- Zlt_Qlt. lia.
  - apply Nat.ltb_ge in E. apply negb_false_iff, Qle_bool_iff.
    rewrite Hq, <- Zle_Qle. lia.
Qed.

Lemma chunkArray_loop_spec (k fuel : nat) (array pre rest : list A) (q : Q)
    (off : nat) (chunks : list (list A)) :
  (1 <= k)%nat ->
  array = pre ++ rest ->
  q == inject_Z (Z.of_nat off) ->
  (List.length pre <= off)%nat ->
  rest = [] \/ off = List.length pre ->
  (List.length rest < fuel)%nat ->
  exists cs,
    chunkArray_loop fuel array (ofNat k) (Fin q) chunks = Some (chunks ++ cs)
    /\ List.concat cs = rest
    /\ Forall (fun c => (1 <= List.length c <= k)%nat) cs
    /\ Forall (fun c => List.length c = k) (removelast cs)
    /\ (cs = [] <-> rest = []).
Proof.
  intros Hk. revert pre rest q off chunks.
  induction fuel as [|fuel IH]; intros pre rest q off chunks Harr Hq Hoff Hcase Hfuel;
    [lia|].
  cbn [chunkArray_loop]. rewrite (@ltb_length _ _ (List.length array) Hq).
  destruct rest as [|a rest].
  - rewrite app_nil_r in Harr. subst array.
    assert (E : (off <? List.length pre)%nat = false) by (apply Nat.ltb_ge; lia).
    rewrite E. exists []. rewrite app_nil_r. repeat split; auto.
  - destruct Hcase as [Hcase|Hcase]; [discriminate|]. subst off.
    assert (E : (List.length pre <? List.length array)%nat = true).
    { apply Nat.ltb_lt. subst array. rewrite length_app. cbn. lia. }
    rewrite E.
    set (c := firstn k (a :: rest)).
    set (rest' := skipn k (a :: rest)).
    assert (Hq' : q + inject_Z (Z.of_nat k)
                  == inject_Z (Z.of_nat (List.length pre + k))).
    { rewrite Hq, Nat2Z.inj_add, inject_Z_plus. reflexivity. }
    assert (Hslice : slice array (Fin q) (Fin q + ofNat k)%js = c).
    { unfold slice. change (Fin q + ofNat k)%js with (Fin (q + inject_Z (Z.of_nat k))).
      rewrite (@relative_nat (List.length array) _ _ Hq), (@relative_nat (List.length array) _ _ Hq').
      subst array. rewrite length_app.
      replace (Nat.min (List.length pre) (List.length pre + List.length (a :: rest)))
        with (List.length pre) by lia.
      rewrite skipn_app, skipn_all, Nat.sub_diag. cbn [app skipn].
      unfold c.
      destruct (Nat.le_gt_cases k (List.length (a :: rest))) as [Hle|Hgt].
      - f_equal. lia.
      - rewrite !firstn_all2 by lia. reflexivity. }
    rewrite Hslice.
    change (Fin q + ofNat k)%js with (Fin (q + inject_Z (Z.of_nat k))).
    destruct (IH (pre ++ c) rest' (q + inject_Z (Z.of_nat k))
                (List.length pre + k)%nat (chunks ++ [c]))
      as (cs & Hloop & Hcat & Hsize & Hfull & Hnil).
    + subst array. rewrite <- app_assoc. unfold c, rest'.
      now rewrite firstn_skipn.
    + exact Hq'.
    + rewrite length_app. unfold c. rewrite length_firstn. lia.
    + unfold rest', c.
      destruct (Nat.le_gt_cases (List.length (a :: rest)) k) as [Hle|Hgt].
      * left. now apply skipn_all2.
      * right. rewrite length_app, length_firstn. lia.
    + unfold rest'. rewrite length_skipn. cbn [List.length] in *. lia.
    + exists (c :: cs). rewrite Hloop, <- app_assoc. cbn [app].
      assert (Hc : (1 <= List.length c <= k)%nat).
      { unfold c. rewrite length_firstn. cbn [List.length]. lia. }
      split; [reflexivity|]. split.
      { cbn [List.concat]. rewrite Hcat. apply firstn_skipn. }
      split; [constructor; assumption|].
      split; [|split; discriminate].
      destruct cs as [|c' cs']; [constructor|].
      change (removelast (c :: c' :: cs')) with (c :: removelast (c' :: cs')).
      constructor; [|exact Hfull].
      assert (Hne : rest' <> []).
      { intros Hr. apply Hnil in Hr. discriminate. }
      unfold c. rewrite length_firstn.
      unfold rest' in Hne.
      destruct (Nat.le_gt_cases (List.length (a :: rest)) k) as [Hle|Hgt];
        [exfalso; apply Hne; now apply skipn_all2 | lia].
Qed.

(** X14.  For a whole chunk size of at least 1, [chunkArray] ends within
    [array.length + 1] tests of its loop condition and cuts the array into
    consecutive chunks: put end to end they give the array back, none is
    empty, and all have exactly [size] elements except possibly the
    last. *)
Theorem chunkArray_partition (array : list A) (size fuel : nat) :
  (1 <= size)%nat -> (List.length array < fuel)%nat ->
  exists chunks,
    chunkArray fuel array (ofNat size) = Some chunks
    /\ List.concat chunks = array
    /\ Forall (fun c => (1 <= List.length c <= size)%nat) chunks
    /\ Forall (fun c => List.length c = size) (removelast chunks).
Proof.
  intros Hsize Hfuel.
  assert (Hq : 0 == inject_Z (Z.of_nat 0)) by reflexivity.
  destruct (@chunkArray_loop_spec size fuel array [] array 0 0 [] Hsize eq_refl Hq
              (Nat.le_refl 0) (or_intror eq_refl) Hfuel)
    as (cs & Hloop & Hcat & Hbounds & Hfull & _).
  exists cs. auto.
Qed.

Lemma chunkArray_loop_stuck (fuel : nat) (array : list A) (size i : Q)
    (chunks : list (list A)) :
  array <> [] -> size <= 0 -> i <= 0 ->
  chunkArray_loop fuel array (Fin size) (Fin i) chunks = None.
Proof.
  intros Hne Hsize. revert i chunks.
  induction fuel as [|fuel IH]; intros i chunks Hi; [reflexivity|].
  cbn [chunkArray_loop].
  assert (E : (Fin i < ofNat (List.length array))%js = true).
  { unfold ofNat, ofZ. cbn [ltb]. apply negb_true_iff, Qle_bool_false_iff.
    eapply Qle_lt_trans; [exact Hi|].
    change 0 with (inject_Z 0). rewrite <- Zlt_Qlt.
    destruct array; [contradiction | cbn [List.length]; lia]. }
  rewrite E. apply IH. lra.
Qed.

(** X15.  With a chunk size of 0 or below, [chunkArray] never returns on
    an array that is not empty: the position does not advance, and the
    loop condition holds at every test. *)
Theorem chunkArray_no_progress (array : list A) (size : Q) (fuel : nat) :
  array <> [] -> size <= 0 ->
  chunkArray fuel array (Fin size) = None.
Proof.
  intros Hne Hsize. apply chunkArray_loop_stuck; [exact Hne | exact Hsize | lra].
Qed.

End ChunkFacts.

Lemma chunkArray_partition_witness :
  exists chunks,
    chunkArray 8 [1; 2; 3; 4; 5; 6; 7]%nat (ofNat 3) = Some chunks
    /\ List.concat chunks = [1; 2; 3; 4; 5; 6; 7]%nat
    /\ Forall (fun c => (1 <= List.length c <= 3)%nat) chunks
    /\ Forall (fun c => List.length c = 3%nat) (removelast chunks).
Proof.
  apply (@chunkArray_partition nat [1; 2; 3; 4; 5; 6; 7]%nat 3 8); cbn; lia.
Defined.

Lemma chunkArray_no_progress_witness :
  chunkArray 1000 [1; 2; 3]%nat (Fin 0) = None.
Proof.
  apply (@chunkArray_no_progress nat [1; 2; 3]%nat 0 1000); discriminate.
Defined.

Example chunkArray_sample :
  chunkArray 8 [1; 2; 3; 4; 5; 6; 7]%nat (ofNat 3)
  = Some [[1; 2; 3]; [4; 5; 6]; [7]]%nat.
Proof. vm_compute. reflexivity. Qed.

(** A size that is not a number ends the loop after one empty chunk. *)
Example chunkArray_NaN : chunkArray 2 [1; 2; 3]%nat NaN = Some [[]].
Proof. vm_compute. reflexivity. Qed.

(* ================================================================== *)
(** * String utilities *)
(* ================================================================== *)

Section StringFacts.

Open Scope string_scope.

Lemma length_append (a b : string) :
  String.length (a ++ b) = (String.length a + String.length b)%nat.
Proof. induction a as [|x a IH]; cbn; [reflexivity | now rewrite IH]. Qed.

Lemma length_string_of_list_ascii (l : list ascii) :
  String.length (string_of_list_ascii l) = List.length l.
Proof. induction l as [|x l IH]; cbn; [reflexivity | now rewrite IH]. Qed.

Lemma length_list_ascii_of_string (s : string) :
  List.length (list_ascii_of_string s) = String.length s.
Proof. induction s as [|x s IH]; cbn; [reflexivity | now rewrite IH]. Qed.

Lemma prefix_firstn (n : nat) (s : string) :
  String.prefix (string_of_list_ascii (firstn n (list_ascii_of_string s))) s = true.
Proof.
  revert n. induction s as [|x s IH]; intros [|n]; cbn; auto.
  destruct (ascii_dec x x); [apply IH | contradiction].
Qed.

Lemma relative_Qeq (len : nat) (q : Q) (z : Z) :
  q == inject_Z z -> relative len (Fin q) = relative len (ofZ z).
Proof.
  intros Hq. unfold relative, ofZ.
  now rewrite (@toInteger_Qeq q z Hq), (@toInteger_Qeq (inject_Z z) z (Qeq_refl _)).
Qed.

(** What [truncate] returns for a string longer than [maxLength]: the
    characters that [slice(0, maxLength - 3)] keeps, then the dots. *)
Lemma truncate_long (str : string) (n : Z) :
  (n < Z.of_nat (String.length str))%Z ->
  truncate str (ofZ n)
  = string_of_list_ascii
      (firstn (if (n - 3 <? 0)%Z
               then Z.to_nat (Z.max (Z.of_nat (String.length str) + (n - 3)) 0)
               else Z.to_nat (Z.min (n - 3) (Z.of_nat (String.length str))))
              (list_ascii_of_string str))
    ++ "...".
Proof.
  intros Hlong. unfold truncate.
  assert (E : (ofNat (String.length str) <= ofZ n)%js = false).
  { unfold ofNat, ofZ. cbn [leb]. apply Qle_bool_false_iff. now rewrite <- Zlt_Qlt. }
  rewrite E. f_equal. unfold String_slice, slice, ofZ. cbn [sub neg add].
  rewrite length_list_ascii_of_string.
  assert (H0 : relative (String.length str) (Fin 0) = 0%nat).
  { change (Fin 0) with (ofZ 0). rewrite relative_ofZ. cbn [Z.ltb Z.compare]. lia. }
  assert (Hq : (inject_Z n + - 3 == inject_Z (n - 3))%Q).
  { unfold Z.sub. rewrite inject_Z_plus. reflexivity. }
  rewrite H0, (@relative_Qeq _ _ _ Hq), relative_ofZ. cbn [skipn].
  now rewrite Nat.sub_0_r.
Qed.

(** X16.  For a maximum length of at least 3, [truncate] returns a
    string of at most that length: the string itself when it fits,
    otherwise its first [maxLength - 3] characters followed by three dots,
    [maxLength] characters in all. *)
Theorem truncate_fits (str : string) (maxLength : Z) :
  (3 <= maxLength)%Z ->
  (Z.of_nat (String.length str) <= maxLength ->
   truncate str (ofZ maxLength) = str)%Z
  /\ (maxLength < Z.of_nat (String.length str) ->
      Z.of_nat (String.length (truncate str (ofZ maxLength))) = maxLength
      /\ exists kept,
           truncate str (ofZ maxLength) = kept ++ "..."
           /\ String.prefix kept str = true)%Z.
Proof.
  intros H3. split.
  - intros Hfits. unfold truncate.
    assert (E : (ofNat (String.length str) <= ofZ maxLength)%js = true).
    { unfold ofNat, ofZ. cbn [leb]. apply Qle_bool_iff. now rewrite <- Zle_Qle. }
    now rewrite E.
  - intros Hlong. rewrite (truncate_long _ Hlong).
    assert (E : (maxLength - 3 <? 0)%Z = false) by (apply Z.ltb_ge; lia).
    rewrite E. split.
    + rewrite length_append, length_string_of_list_ascii, length_firstn,
        length_list_ascii_of_string. cbn [String.length]. lia.
    + eexists. split; [reflexivity|]. apply prefix_firstn.
Qed.

Lemma truncate_fits_witness :
  (Z.of_nat (String.length "The quick brown fox") <= 10 ->
   truncate "The quick brown fox" (ofZ 10) = "The quick brown fox")%Z
  /\ (10 < Z.of_nat (String.length "The quick brown fox") ->
      Z.of_nat (String.length (truncate "The quick brown fox" (ofZ 10))) = 10
      /\ exists kept,
           truncate "The quick brown fox" (ofZ 10) = kept ++ "..."
           /\ String.prefix kept "The quick brown fox" = true)%Z.
Proof. apply (@truncate_fits "The quick brown fox" 10). lia. Defined.

Example truncate_sample : truncate "The quick brown fox" (ofZ 10) = "The qui...".
Proof. vm_compute. reflexivity. Qed.

(** X17.  For a maximum length below 3, a string that is too long is not
    shortened to it: [slice] takes the negative end from the end of the
    string, and the result has [length + maxLength] characters, more than
    [maxLength]. *)
Theorem truncate_short_limit (str : string) (maxLength : Z) :
  (maxLength < 3)%Z ->
  (maxLength < Z.of_nat (String.length str))%Z ->
  (3 - maxLength <= Z.of_nat (String.length str))%Z ->
  (Z.of_nat (String.length (truncate str (ofZ maxLength)))
   = Z.of_nat (String.length str) + maxLength)%Z
  /\ (maxLength < Z.of_nat (String.length (truncate str (ofZ maxLength))))%Z.
Proof.
  intros H3 Hlong Hroom. rewrite (truncate_long _ Hlong).
  assert (E : (maxLength - 3 <? 0)%Z = true) by (apply Z.ltb_lt; lia).
  rewrite E.
  rewrite length_append, length_string_of_list_ascii, length_firstn,
    length_list_ascii_of_string. cbn [String.length]. lia.
Qed.

Lemma truncate_short_limit_witness :
  (Z.of_nat (String.length (truncate "abcdef" (ofZ 2)))
   = Z.of_nat (String.length "abcdef") + 2)%Z
  /\ (2 < Z.of_nat (String.length (truncate "abcdef" (ofZ 2))))%Z.
Proof. apply (@truncate_short_limit "abcdef" 2); cbn; lia. Defined.

Example truncate_short_limit_sample : truncate "abcdef" (ofZ 2) = "abcde...".
Proof. vm_compute. reflexivity. Qed.

End StringFacts.

Section SanitizeFacts.

Open Scope string_scope.

Lemma replace_char_append (c : ascii) (rep a b : string) :
  replace_char c rep (a ++ b) = replace_char c rep a ++ replace_char c rep b.
Proof.
  induction a as [|x a IH]; cbn [String.append replace_char]; [reflexivity|].
  destruct (Ascii.eqb x c); rewrite IH; [now rewrite append_assoc | reflexivity].
Qed.

(** The five replacements, one after the other, on a text that starts
    with an entity or with a character that needs none. *)
Lemma sanitizeString_cons (x : ascii) (rest : string) :
  sanitizeString (String x rest) = Spec2.escape x ++ sanitizeString rest.
Proof.
  unfold sanitizeString, Spec2.escape. cbn [replace_char].
  destruct (Ascii.eqb x "&") eqn:E1.
  { rewrite !replace_char_append. reflexivity. }
  cbn [replace_char]. destruct (Ascii.eqb x "<") eqn:E2.
  { rewrite !replace_char_append. reflexivity. }
  cbn [replace_char]. destruct (Ascii.eqb x ">") eqn:E3.
  { rewrite !replace_char_append. reflexivity. }
  cbn [replace_char]. destruct (Ascii.eqb x dquote) eqn:E4.
  { rewrite !replace_char_append. reflexivity. }
  cbn [replace_char]. destruct (Ascii.eqb x "'") eqn:E5; reflexivity.
Qed.

Lemma forallb_append (f : ascii -> bool) (a b : string) :
  forallb f (list_ascii_of_string (a ++ b))
  = forallb f (list_ascii_of_string a) && forallb f (list_ascii_of_string b).
Proof.
  induction a as [|x a IH]; cbn; [reflexivity|]. rewrite IH. now rewrite andb_assoc.
Qed.

Lemma escape_no_markup (c : ascii) :
  forallb (fun x => negb (Spec2.is_markup x)) (list_ascii_of_string (Spec2.escape c))
  = true.
Proof.
  unfold Spec2.escape.
  destruct (Ascii.eqb c "&"); [reflexivity|].
  destruct (Ascii.eqb c "<") eqn:E2; [reflexivity|].
  destruct (Ascii.eqb c ">") eqn:E3; [reflexivity|].
  destruct (Ascii.eqb c dquote) eqn:E4; [reflexivity|].
  destruct (Ascii.eqb c "'") eqn:E5; [reflexivity|].
  cbn. unfold Spec2.is_markup. now rewrite E2, E3, E4, E5.
Qed.

(** X18.  [sanitizeString] escapes the text in one pass: each of the
    characters [&], [<], [>], the double quote and the apostrophe becomes
    its entity, and the [&] of an entity is not escaped again.  The result
    holds no [<], [>], double quote or apostrophe. *)
Theorem sanitizeString_escapes (str : string) :
  sanitizeString str = Spec2.escape_all str
  /\ Forall (fun c => Spec2.is_markup c = false)
            (list_ascii_of_string (sanitizeString str)).
Proof.
  assert (H1 : sanitizeString str = Spec2.escape_all str).
  { induction str as [|x rest IH]; [reflexivity|].
    rewrite sanitizeString_cons, IH. reflexivity. }
  split; [exact H1|]. rewrite H1.
  apply Forall_forall. intros c Hc.
  assert (Hall : forallb (fun x => negb (Spec2.is_markup x))
                         (list_ascii_of_string (Spec2.escape_all str)) = true).
  { clear. induction str as [|x rest IH]; [reflexivity|].
    cbn [Spec2.escape_all]. now rewrite forallb_append, escape_no_markup, IH. }
  rewrite forallb_forall in Hall. specialize (Hall c Hc).
  now apply negb_true_iff in Hall.
Qed.

Example sanitizeString_sample :
  sanitizeString "<a href='x'>Q&A</a>"
  = "&lt;a href=&#x27;x&#x27;&gt;Q&amp;A&lt;/a&gt;".
Proof. vm_compute. reflexivity. Qed.

End SanitizeFacts.

(* ================================================================== *)
(** * Throttling and rate limiting *)
(* ================================================================== *)

Section ThrottleFacts.

Context {Args R : Type} (fn : Args -> R).

(** X19.  Whatever the instants of the calls, the calls that a throttled
    function lets through keep a distance of at least [delay]: each one
    comes [delay] or more after the previous one that went through, the
    first one [delay] or more after 0. *)
Theorem throttle_spaced (delay lastCall : number) (trace : list (number * Args)) :
  Spec2.spaced delay lastCall
    (Throttle.executed trace (fst (Throttle.calls fn delay lastCall trace)))
  /\ List.length (fst (Throttle.calls fn delay lastCall trace)) = List.length trace.
Proof.
  revert lastCall. induction trace as [|[now args] rest IH]; intros lastCall.
  - split; [exact I | reflexivity].
  - cbn [Throttle.calls]. unfold Throttle.call.
    destruct (now - lastCall >= delay)%js eqn:E.
    + destruct (IH now) as [Hs Hl].
      destruct (Throttle.calls fn delay now rest) as [results final].
      cbn [fst Throttle.executed Spec2.spaced List.length] in *. auto.
    + destruct (IH lastCall) as [Hs Hl].
      destruct (Throttle.calls fn delay lastCall rest) as [results final].
      cbn [fst Throttle.executed List.length] in *. auto.
Qed.

End ThrottleFacts.

Example throttle_sample :
  fst (Throttle.calls (fun x : nat => x) (Fin 100) Throttle.initial
         [(Fin 1000, 1); (Fin 1050, 2); (Fin 1100, 3); (Fin 1150, 4)]%nat)
  = [Some 1; None; Some 3; None]%nat.
Proof. vm_compute. reflexivity. Qed.

Section RateLimiterFacts.

Lemma JsMap_get_set_same {V} (m : JsMap.t V) (key : string) (v : V) :
  JsMap.get (JsMap.set m key v) key = Some v.
Proof.
  induction m as [|[k w] m IH]; cbn.
  - now rewrite String.eqb_refl.
  - destruct (String.eqb k key) eqn:E; cbn; rewrite E; auto.
Qed.

Lemma JsMap_get_set_other {V} (m : JsMap.t V) (key key' : string) (v : V) :
  key <> key' -> JsMap.get (JsMap.set m key v) key' = JsMap.get m key'.
Proof.
  intros Hne. induction m as [|[k w] m IH]; cbn.
  - destruct (String.eqb key key') eqn:E; [apply String.eqb_eq in E; contradiction|].
    reflexivity.
  - destruct (String.eqb k key) eqn:E; cbn.
    + apply String.eqb_eq in E. subst k.
      destruct (String.eqb key key') eqn:E'; [apply String.eqb_eq in E'; contradiction|].
      reflexivity.
    + destruct (String.eqb k key'); [reflexivity | exact IH].
Qed.

Lemma clean_stored (windowStart : number) (reqs : RateLimiter.requests)
    (identifier id : string) :
  RateLimiter.stored (RateLimiter.clean windowStart reqs identifier) id
  = if String.eqb identifier id
    then filter (fun time => (time > windowStart)%js) (RateLimiter.stored reqs identifier)
    else RateLimiter.stored reqs id.
Proof.
  unfold RateLimiter.clean, JsMap.has, RateLimiter.stored.
  destruct (JsMap.get reqs identifier) as [l|] eqn:E.
  - destruct (String.eqb identifier id) eqn:Eid.
    + apply String.eqb_eq in Eid. subst id. now rewrite JsMap_get_set_same.
    + rewrite JsMap_get_set_other; [reflexivity|].
      intros ->. now rewrite String.eqb_refl in Eid.
  - destruct (String.eqb identifier id) eqn:Eid; [|reflexivity].
    apply String.eqb_eq in Eid. subst id. now rewrite E.
Qed.

(** What a call does to the record of each identifier: the requests of
    the caller that are out of the window are dropped, and the instant of
    the call is added when it is let through. *)
Lemma call_stored (maxRequests windowMs : number) (reqs : RateLimiter.requests)
    (identifier : string) (now : number) (id : string) :
  let kept := filter (fun time => (time > now - windowMs)%js) (RateLimiter.stored reqs identifier) in
  fst (RateLimiter.call maxRequests windowMs reqs identifier now)
  = negb (ofNat (List.length kept) >= maxRequests)%js
  /\ RateLimiter.stored (snd (RateLimiter.call maxRequests windowMs reqs identifier now)) id
     = if String.eqb identifier id then
         if fst (RateLimiter.call maxRequests windowMs reqs identifier now)
         then kept ++ [now] else kept
       else RateLimiter.stored reqs id.
Proof.
  intros kept. unfold RateLimiter.call.
  pose proof (clean_stored (now - windowMs)%js reqs identifier identifier) as Hself.
  rewrite String.eqb_refl in Hself. fold kept in Hself. rewrite Hself.
  pose proof (clean_stored (now - windowMs)%js reqs identifier id) as Hid.
  destruct (ofNat (List.length kept) >= maxRequests)%js; cbn [fst snd negb].
  - split; [reflexivity|]. rewrite Hid.
    destruct (String.eqb identifier id); reflexivity.
  - split; [reflexivity|].
    destruct (String.eqb identifier id) eqn:E.
    + apply String.eqb_eq in E. subst id. unfold RateLimiter.stored at 1.
      now rewrite JsMap_get_set_same.
    + assert (Hne : identifier <> id) by (intros ->; now rewrite String.eqb_refl in E).
      unfold RateLimiter.stored at 1. rewrite JsMap_get_set_other by exact Hne.
      exact Hid.
Qed.

Lemma calls_capacity (m : nat) (windowMs : number) (trace : list (string * number))
    (reqs : RateLimiter.requests) :
  (forall id, List.length (RateLimiter.stored reqs id) <= m)%nat ->
  forall id,
    (List.length (RateLimiter.stored (snd (RateLimiter.calls (ofNat m) windowMs reqs trace)) id)
     <= m)%nat.
Proof.
  revert reqs. induction trace as [|[identifier now] rest IH]; intros reqs Hinv id.
  - apply Hinv.
  - cbn [RateLimiter.calls].
    destruct (RateLimiter.call (ofNat m) windowMs reqs identifier now)
      as [answer reqs'] eqn:Ecall.
    specialize (IH reqs').
    destruct (RateLimiter.calls (ofNat m) windowMs reqs' rest) as [answers final].
    cbn [snd] in *. apply IH. intros id'.
    destruct (call_stored (ofNat m) windowMs reqs identifier now id') as [Hans Hst].
    rewrite Ecall in Hans, Hst. cbn [fst snd] in Hans, Hst. rewrite Hst.
    destruct (String.eqb identifier id'); [|apply Hinv].
    pose proof (filter_length_le (fun time => (time > now - windowMs)%js)
                  (RateLimiter.stored reqs identifier)) as Hle.
    specialize (Hinv identifier).
    destruct answer.
    + symmetry in Hans. apply negb_true_iff in Hans.
      assert (Hlt : (List.length (filter (fun time => (time > now - windowMs)%js)
                                         (RateLimiter.stored reqs identifier)) < m)%nat).
      { apply Nat.nle_gt. intros Hge. apply ofNat_geb in Hge. congruence. }
      rewrite length_app. cbn [List.length]. lia.
    + lia.
Qed.

(** X20.  Starting from an empty limiter, whatever the calls and their
    instants, the limiter never keeps more than [maxRequests] requests on
    record for an identifier. *)
Theorem rateLimiter_capacity (maxRequests : nat) (windowMs : number)
    (trace : list (string * number)) (identifier : string) (record : list number) :
  JsMap.get (snd (RateLimiter.calls (ofNat maxRequests) windowMs [] trace)) identifier
  = Some record ->
  (List.length record <= maxRequests)%nat.
Proof.
  intros Hget.
  pose proof (@calls_capacity maxRequests windowMs trace []) as H.
  specialize (H (fun _ => Nat.le_0_l _) identifier).
  unfold RateLimiter.stored in H. now rewrite Hget in H.
Qed.

Lemma gtb_window (x : number) (a b : Q) :
  a <= b -> (x > Fin b)%js = true -> (x > Fin a)%js = true.
Proof.
  unfold gtb. destruct x as [q| | |]; cbn; try discriminate; auto.
  rewrite !negb_true_iff, !Qle_bool_false_iff. intros; lra.
Qed.

Lemma filter_filter_window (l : list number) (a b : Q) :
  a <= b ->
  filter (fun time => (time > Fin b)%js) (filter (fun time => (time > Fin a)%js) l)
  = filter (fun time => (time > Fin b)%js) l.
Proof.
  intros Hab. induction l as [|x l IH]; [reflexivity|]. cbn [filter].
  destruct (x > Fin b)%js eqn:Eb.
  - rewrite (gtb_window _ Hab Eb). cbn [filter]. now rewrite Eb, IH.
  - destruct (x > Fin a)%js; [cbn [filter]; rewrite Eb|]; exact IH.
Qed.

Lemma calls_window (m : nat) (w now : Q) (trace : list (string * Q))
    (reqs : RateLimiter.requests) (before : string -> list number) :
  Forall (fun c => snd c <= now) trace ->
  (forall id, filter (fun time => (time > Fin now - Fin w)%js) (RateLimiter.stored reqs id)
              = filter (fun time => (time > Fin now - Fin w)%js) (before id)) ->
  forall id,
    filter (fun time => (time > Fin now - Fin w)%js)
           (RateLimiter.stored (snd (RateLimiter.calls (ofNat m) (Fin w) reqs (Spec2.instants trace)))
                   id)
    = filter (fun time => (time > Fin now - Fin w)%js)
             (before id
              ++ RateLimiter.accepted id (Spec2.instants trace)
                   (fst (RateLimiter.calls (ofNat m) (Fin w) reqs (Spec2.instants trace)))).
Proof.
  intros Hle. revert reqs before.
  induction Hle as [|[identifier t0] rest Ht0 Hrest IH]; intros reqs before Hinv id.
  - cbn. rewrite app_nil_r. apply Hinv.
  - cbn [Spec2.instants map fst snd RateLimiter.calls] in *.
    fold (Spec2.instants rest).
    pose proof (fun id' => proj2 (call_stored (ofNat m) (Fin w) reqs identifier (Fin t0) id'))
      as Hst.
    destruct (RateLimiter.call (ofNat m) (Fin w) reqs identifier (Fin t0))
      as [answer reqs'] eqn:Ecall.
    cbn [fst snd] in Hst.
    specialize (IH reqs'
                  (fun id' => before id'
                              ++ if answer && String.eqb identifier id'
                                 then [Fin t0] else [])).
    destruct (RateLimiter.calls (ofNat m) (Fin w) reqs' (Spec2.instants rest))
      as [answers final].
    cbn [fst snd RateLimiter.accepted] in *.
    rewrite IH.
    + destruct answer; cbn [andb].
      * destruct (String.eqb identifier id); rewrite <- app_assoc; reflexivity.
      * now rewrite app_nil_r.
    + intros id'. rewrite Hst.
      change (Fin now - Fin w)%js with (Fin (now + - w)).
      change (Fin t0 - Fin w)%js with (Fin (t0 + - w)).
      specialize (Hinv id'). change (Fin now - Fin w)%js with (Fin (now + - w)) in Hinv.
      assert (Hw : t0 + - w <= now + - w) by lra.
      destruct (String.eqb identifier id') eqn:E.
      * apply String.eqb_eq in E. subst id'.
        destruct answer; cbn [andb].
        -- rewrite !filter_app, (filter_filter_window _ Hw), Hinv. reflexivity.
        -- rewrite (filter_filter_window _ Hw), Hinv. now rewrite app_nil_r.
      * rewrite andb_false_r, app_nil_r. exact Hinv.
Qed.

(** X21.  The limiter is a sliding window.  After any calls made at
    instants up to [now], a call of an identifier at [now] is let through
    exactly when fewer than [maxRequests] of its calls that were let
    through lie in the window, that is later than [now - windowMs]. *)
Theorem rateLimiter_sliding_window (maxRequests : nat) (windowMs now : Q)
    (trace : list (string * Q)) (identifier : string) :
  Forall (fun c => snd c <= now) trace ->
  let past := RateLimiter.calls (ofNat maxRequests) (Fin windowMs) []
                (Spec2.instants trace) in
  fst (RateLimiter.call (ofNat maxRequests) (Fin windowMs) (snd past) identifier (Fin now))
  = true
  <-> (List.length
         (filter (fun time => (time > Fin now - Fin windowMs)%js)
                 (RateLimiter.accepted identifier (Spec2.instants trace) (fst past)))
       < maxRequests)%nat.
Proof.
  intros Hle past. subst past.
  destruct (call_stored (ofNat maxRequests) (Fin windowMs)
              (snd (RateLimiter.calls (ofNat maxRequests) (Fin windowMs) []
                      (Spec2.instants trace)))
              identifier (Fin now) identifier) as [Hans _].
  rewrite Hans.
  rewrite (@calls_window maxRequests windowMs now trace [] (fun _ => []) Hle
             (fun _ => eq_refl) identifier).
  cbn [app]. rewrite negb_true_iff.
  split.
  - intros Hno. apply Nat.nle_gt. intros Hge. apply ofNat_geb in Hge. congruence.
  - intros Hlt. apply not_true_is_false. intros Hge. apply ofNat_geb in Hge. lia.
Qed.

End RateLimiterFacts.

Lemma rateLimiter_capacity_witness :
  JsMap.get
    (snd (RateLimiter.calls (ofNat 2) (Fin 100) []
            [("ann", Fin 10); ("ann", Fin 20); ("bob", Fin 25); ("ann", Fin 30)]%string))
    "ann"
  = Some [Fin 10; Fin 20]
  /\ (List.length [Fin 10; Fin 20] <= 2)%nat.
Proof.
  split; [reflexivity|].
  apply (@rateLimiter_capacity 2 (Fin 100)
           [("ann", Fin 10); ("ann", Fin 20); ("bob", Fin 25); ("ann", Fin 30)]%string
           "ann"%string [Fin 10; Fin 20]).
  reflexivity.
Defined.

Lemma rateLimiter_sliding_window_witness :
  let past := RateLimiter.calls (ofNat 2) (Fin 100) []
                (Spec2.instants [("ann"%string, 10%Q); ("ann"%string, 20%Q); ("ann"%string, 30%Q)]) in
  fst (RateLimiter.call (ofNat 2) (Fin 100) (snd past) "ann" (Fin 115)) = true
  <-> (List.length
         (filter (fun time => (time > Fin 115 - Fin 100)%js)
                 (RateLimiter.accepted "ann"
                    (Spec2.instants [("ann"%string, 10%Q); ("ann"%string, 20%Q); ("ann"%string, 30%Q)])
                    (fst past)))
       < 2)%nat.
Proof.
  apply (@rateLimiter_sliding_window 2 100 115
           [("ann"%string, 10%Q); ("ann"%string, 20%Q); ("ann"%string, 30%Q)] "ann"%string).
  repeat constructor; discriminate.
Defined.

Example rateLimiter_sample :
  fst (RateLimiter.calls (ofNat 2) (Fin 100) []
         [("ann", Fin 10); ("ann", Fin 20); ("ann", Fin 30); ("bob", Fin 40);
          ("ann", Fin 115)]%string)
  = [true; true; false; true; true].
Proof. vm_compute. reflexivity. Qed.

(* ================================================================== *)
(** * Retries with exponential backoff *)
(* ================================================================== *)

Section RetryFacts.

Context {E V : Type}.
Variable operation : nat -> E + V.
Variable maxRetries : nat.
Variable baseDelay : number.

Lemma retry_loop_fails (k fuel attempt : nat) (lastError : option E)
    (slept : list number) (error : E) :
  (attempt + k < maxRetries)%nat ->
  operation attempt = inl error ->
  Retry.retry_loop operation (ofNat maxRetries) baseDelay (S fuel) attempt lastError slept
  = Retry.retry_loop operation (ofNat maxRetries) baseDelay fuel (S attempt) (Some error)
      (slept ++ [(baseDelay * Retry.Math_pow2 attempt)%js]).
Proof.
  intros Hlt Hop. cbn [Retry.retry_loop].
  assert (H1 : (ofNat attempt <= ofNat maxRetries)%js = true).
  { apply (ofNat_geb maxRetries attempt). lia. }
  assert (H2 : (ofNat attempt === ofNat maxRetries)%js = false).
  { apply not_true_is_false. intros H. apply ofNat_strict_eqb in H. lia. }
  now rewrite H1, Hop, H2.
Qed.

Lemma map_seq_snoc (f : nat -> number) (a k : nat) :
  map f (seq a k) ++ [f (a + k)%nat] = map f (seq a (S k)).
Proof. now rewrite seq_S, map_app. Qed.

(** The loop, started at [attempt] when the operation fails up to the
    attempt before [k]. *)
Lemma retry_loop_until (n fuel attempt : nat) (lastError : option E)
    (slept : list number) :
  (attempt + n <= maxRetries)%nat ->
  (forall j, (attempt <= j < attempt + n)%nat -> exists e, operation j = inl e) ->
  (n < fuel)%nat ->
  exists lastError',
    Retry.retry_loop operation (ofNat maxRetries) baseDelay fuel attempt lastError slept
    = Retry.retry_loop operation (ofNat maxRetries) baseDelay (fuel - n) (attempt + n)
        lastError'
        (slept ++ map (fun a => (baseDelay * Retry.Math_pow2 a)%js) (seq attempt n))
    /\ (n = 0%nat -> lastError' = lastError)
    /\ (forall e, operation (attempt + n - 1) = inl e -> (0 < n)%nat ->
                  lastError' = Some e).
Proof.
  revert fuel attempt lastError slept. induction n as [|n IH];
    intros fuel attempt lastError slept Hle Hfail Hfuel.
  - exists lastError. rewrite Nat.sub_0_r, Nat.add_0_r. cbn [seq map].
    rewrite app_nil_r. repeat split; auto. intros; lia.
  - destruct fuel as [|fuel]; [lia|].
    destruct (Hfail attempt) as [e He]; [lia|].
    rewrite (@retry_loop_fails 0 fuel attempt lastError slept e) by (auto; lia).
    destruct (IH fuel (S attempt) (Some e)
                (slept ++ [(baseDelay * Retry.Math_pow2 attempt)%js]))
      as (lastError' & Hloop & H0 & Hlast).
    + lia.
    + intros j Hj. apply Hfail. lia.
    + lia.
    + exists lastError'. rewrite Hloop.
      replace (S attempt + n)%nat with (attempt + S n)%nat by lia.
      cbn [Nat.sub seq map]. rewrite <- app_assoc. cbn [app].
      split; [reflexivity|]. split; [discriminate|].
      intros e' He' _. destruct n as [|n].
      * rewrite (H0 eq_refl). replace (attempt + 1 - 1)%nat with attempt in He' by lia.
        congruence.
      * apply Hlast; [|lia].
        replace (S attempt + S n - 1)%nat with (attempt + S (S n) - 1)%nat by lia.
        exact He'.
Qed.

Lemma retryWithBackoff_success (k fuel : nat) (value : V) :
  (k <= maxRetries)%nat ->
  (forall j, (j < k)%nat -> exists e, operation j = inl e) ->
  operation k = inr value ->
  (k < fuel)%nat ->
  Retry.retryWithBackoff operation (ofNat maxRetries) baseDelay fuel
  = Some (Retry.Resolved value, Spec2.backoff baseDelay k).
Proof.
  intros Hk Hfail Hok Hfuel. unfold Retry.retryWithBackoff, Spec2.backoff.
  destruct (@retry_loop_until k fuel 0 None []) as (lastError' & Hloop & _);
    [lia | intros j Hj; apply Hfail; lia | exact Hfuel |].
  rewrite Hloop. cbn [app Nat.add].
  destruct (fuel - k)%nat as [|fuel'] eqn:Ef; [lia|].
  cbn [Retry.retry_loop].
  assert (H1 : (ofNat k <= ofNat maxRetries)%js = true).
  { apply (ofNat_geb maxRetries k). exact Hk. }
  now rewrite H1, Hok.
Qed.

Lemma retryWithBackoff_failure (fuel : nat) (error : E) :
  (forall j, (j < maxRetries)%nat -> exists e, operation j = inl e) ->
  operation maxRetries = inl error ->
  (maxRetries < fuel)%nat ->
  Retry.retryWithBackoff operation (ofNat maxRetries) baseDelay fuel
  = Some (Retry.Rejected (Some error), Spec2.backoff baseDelay maxRetries).
Proof.
  intros Hfail Hlast Hfuel. unfold Retry.retryWithBackoff, Spec2.backoff.
  destruct (@retry_loop_until maxRetries fuel 0 None []) as (lastError' & Hloop & _);
    [lia | intros j Hj; apply Hfail; lia | exact Hfuel |].
  rewrite Hloop. cbn [app Nat.add].
  destruct (fuel - maxRetries)%nat as [|fuel'] eqn:Ef; [lia|].
  cbn [Retry.retry_loop].
  assert (H1 : (ofNat maxRetries <= ofNat maxRetries)%js = true).
  { apply (ofNat_geb maxRetries maxRetries). lia. }
  assert (H2 : (ofNat maxRetries === ofNat maxRetries)%js = true).
  { now apply ofNat_strict_eqb. }
  now rewrite H1, Hlast, H2.
Qed.

End RetryFacts.

Section BackoffFacts.

Open Scope Q_scope.

Lemma fold_left_add_Fin (l : list Q) (acc : Q) :
  fold_left add (map Fin l) (Fin acc) =n= Fin (fold_left Qplus l acc).
Proof.
  revert acc. induction l as [|x l IH]; intros acc; cbn [map fold_left add].
  - apply num_eq_refl.
  - apply IH.
Qed.

Lemma pow2_succ (k : nat) :
  inject_Z (2 ^ Z.of_nat (S k)) == 2 * inject_Z (2 ^ Z.of_nat k).
Proof.
  rewrite Nat2Z.inj_succ, Z.pow_succ_r by lia. now rewrite inject_Z_mult.
Qed.

(** The delays of a backoff add up to [baseDelay * (2^k - 1)]. *)
Lemma backoff_total (b : Q) (k : nat) :
  Spec2.total (Spec2.backoff (Fin b) k) =n= Fin (b * (inject_Z (2 ^ Z.of_nat k) - 1)).
Proof.
  unfold Spec2.total, Spec2.backoff.
  replace (map (fun attempt => (Fin b * Retry.Math_pow2 attempt)%js) (seq 0 k))
    with (map Fin (map (fun attempt => b * inject_Z (2 ^ Z.of_nat attempt)) (seq 0 k)))
    by (rewrite map_map; reflexivity).
  eapply num_eq_trans; [apply fold_left_add_Fin|]. cbn [num_eq].
  induction k as [|k IH].
  - cbn. ring.
  - rewrite seq_S, map_app, fold_left_app. cbn [Nat.add map fold_left].
    rewrite IH, pow2_succ. ring.
Qed.

Context {E V : Type}.

(** X22.  When the operation fails on the attempts before [k] and
    succeeds on attempt [k <= maxRetries], [retryWithBackoff] resolves with
    that value, after sleeping [baseDelay * 2^0], ..., [baseDelay * 2^(k-1)]
    between the attempts, [baseDelay * (2^k - 1)] in all. *)
Theorem retryWithBackoff_succeeds (operation : nat -> E + V) (maxRetries : nat)
    (baseDelay : Q) (k fuel : nat) (value : V) :
  (k <= maxRetries)%nat ->
  (forall j, (j < k)%nat -> exists e, operation j = inl e) ->
  operation k = inr value ->
  (k < fuel)%nat ->
  Retry.retryWithBackoff operation (ofNat maxRetries) (Fin baseDelay) fuel
  = Some (Retry.Resolved value, Spec2.backoff (Fin baseDelay) k)
  /\ Spec2.total (Spec2.backoff (Fin baseDelay) k)
     =n= Fin (baseDelay * (inject_Z (2 ^ Z.of_nat k) - 1)).
Proof.
  intros Hk Hfail Hok Hfuel. split; [|apply backoff_total].
  now apply retryWithBackoff_success.
Qed.

(** X23.  When the operation fails on every attempt from 0 to
    [maxRetries], [retryWithBackoff] rejects with the error of the last
    attempt, after [maxRetries + 1] attempts; it sleeps between the
    attempts and not after the last one,
    [baseDelay * (2^maxRetries - 1)] in all. *)
Theorem retryWithBackoff_gives_up (operation : nat -> E + V) (maxRetries : nat)
    (baseDelay : Q) (fuel : nat) (error : E) :
  (forall j, (j < maxRetries)%nat -> exists e, operation j = inl e) ->
  operation maxRetries = inl error ->
  (maxRetries < fuel)%nat ->
  Retry.retryWithBackoff operation (ofNat maxRetries) (Fin baseDelay) fuel
  = Some (Retry.Rejected (Some error), Spec2.backoff (Fin baseDelay) maxRetries)
  /\ Spec2.total (Spec2.backoff (Fin baseDelay) maxRetries)
     =n= Fin (baseDelay * (inject_Z (2 ^ Z.of_nat maxRetries) - 1)).
Proof.
  intros Hfail Hlast Hfuel. split; [|apply backoff_total].
  now apply retryWithBackoff_failure.
Qed.

End BackoffFacts.

Lemma retryWithBackoff_succeeds_witness :
  Retry.retryWithBackoff
    (fun j => if (j <? 2)%nat then inl "timeout"%string else inr 42%nat)
    (ofNat 3) (Fin 1000) 4
  = Some (Retry.Resolved 42%nat, Spec2.backoff (Fin 1000) 2)
  /\ Spec2.total (Spec2.backoff (Fin 1000) 2)
     =n= Fin (1000 * (inject_Z (2 ^ Z.of_nat 2) - 1)).
Proof.
  apply (@retryWithBackoff_succeeds string nat
           (fun j => if (j <? 2)%nat then inl "timeout"%string else inr 42%nat)
           3 1000 2 4 42%nat).
  - lia.
  - intros [|[|j]] Hj; [eexists; reflexivity | eexists; reflexivity | lia].
  - reflexivity.
  - lia.
Defined.

Lemma retryWithBackoff_gives_up_witness :
  Retry.retryWithBackoff (fun j => @inl nat nat j) (ofNat 3) (Fin 1000) 4
  = Some (Retry.Rejected (Some 3%nat), Spec2.backoff (Fin 1000) 3)
  /\ Spec2.total (Spec2.backoff (Fin 1000) 3)
     =n= Fin (1000 * (inject_Z (2 ^ Z.of_nat 3) - 1)).
Proof.
  apply (@retryWithBackoff_gives_up nat nat (fun j => @inl nat nat j) 3 1000 4 3%nat).
  - intros j _. eexists; reflexivity.
  - reflexivity.
  - lia.
Defined.

Example retryWithBackoff_sample :
  Retry.retryWithBackoff (fun j => @inl nat nat j) (ofNat 3) (Fin 1000) 4
  = Some (Retry.Rejected (Some 3%nat), [Fin 1000; Fin 2000; Fin 4000]).
Proof. vm_compute. reflexivity. Qed.

(** A negative [maxRetries] never runs the operation: the rejection
    carries [undefined]. *)
Example retryWithBackoff_negative :
  Retry.retryWithBackoff (fun j => @inr nat nat j) (Fin (-1)) (Fin 1000) 1
  = Some (Retry.Rejected None, []).
Proof. vm_compute. reflexivity. Qed.

(* ================================================================== *)
(** * Schemas of the lobby and of the answers *)
(* ================================================================== *)

Section SchemaFacts.

(** A number that passes [.int()], [.min(lo)] and [.max(hi)] is an
    integer between the two bounds. *)
Lemma z_number_int_range (p : list string) (n : number) (lo hi : Z)
    (m1 m2 m3 : option string) :
  z_number p n (num_int m1 p n ++ num_min (ofZ lo) m2 p n ++ num_max (ofZ hi) m3 p n) = [] ->
  exists z : Z, n =n= ofZ z /\ (lo <= z <= hi)%Z.
Proof.
  intros H. apply z_number_nil in H. destruct H as [Hnan H].
  apply app_eq_nil in H. destruct H as [Hint H].
  apply app_eq_nil in H. destruct H as [Hmin Hmax].
  apply check_nil in Hint. apply check_nil, negb_true_iff in Hmin.
  apply check_nil, negb_true_iff in Hmax.
  destruct n as [q| | |]; try discriminate.
  cbn [isInteger] in Hint. apply Qeq_bool_iff in Hint.
  unfold ofZ, gtb in *. cbn [ltb] in Hmin, Hmax.
  apply negb_false_iff, Qle_bool_iff in Hmin.
  apply negb_false_iff, Qle_bool_iff in Hmax.
  exists (Qfloor q). split; [exact Hint|].
  split; rewrite Zle_Qle, <- Hint; assumption.
Qed.

(** X24.  Settings that [lobbySettingsSchema] accepts have a category
    and a difficulty of the game, an integer time per question from 5 to
    120, integer points per correct answer from 1 to 1000, an integer
    speed bonus from 0 to 200 and, when a question count is given, an
    integer count from 1 to 50. *)
Theorem lobbySettingsSchema_ranges (data : LobbySettings) :
  lobbySettingsSchema data = [] ->
  In (settings_category data) QUESTION_CATEGORIES
  /\ In (settings_difficulty data) DIFFICULTY_LEVELS
  /\ (exists t, timePerQuestion data =n= ofZ t /\ (5 <= t <= 120)%Z)
  /\ (exists p, pointsPerCorrect data =n= ofZ p /\ (1 <= p <= 1000)%Z)
  /\ (exists b, speedBonus data =n= ofZ b /\ (0 <= b <= 200)%Z)
  /\ (forall n, questionCount data = Some n ->
        exists c, n =n= ofZ c /\ (1 <= c <= 50)%Z).
Proof.
  unfold lobbySettingsSchema. intros H.
  apply app_eq_nil in H as [Hcat H].
  apply app_eq_nil in H as [Hdiff H].
  apply app_eq_nil in H as [Hcount H].
  apply app_eq_nil in H as [Htime H].
  apply app_eq_nil in H as [Hpoints Hbonus].
  assert (Henum : forall values msg p s,
             z_enum_message values msg p s = [] -> In s values).
  { intros values msg p s Hs. apply check_nil, existsb_exists in Hs.
    destruct Hs as (x & Hx & Heq). apply String.eqb_eq in Heq. now subst. }
  split; [eapply Henum; exact Hcat|].
  split; [eapply Henum; exact Hdiff|].
  split; [exact (z_number_int_range _ _ 5 120 _ _ _ Htime)|].
  split; [exact (z_number_int_range _ _ 1 1000 _ _ _ Hpoints)|].
  split; [exact (z_number_int_range _ _ 0 200 _ _ _ Hbonus)|].
  intros n Hn. rewrite Hn in Hcount. cbn [optional] in Hcount.
  exact (z_number_int_range _ _ 1 50 _ _ _ Hcount).
Qed.

Lemma userIdSchema_nil (p : list string) (s : string) :
  userIdSchema p s = [] -> (1 <= String.length s <= 128)%nat.
Proof.
  unfold userIdSchema, str_min, str_max. intros H.
  apply app_eq_nil in H as [H1 H2].
  apply check_nil, Nat.leb_le in H1. apply check_nil, Nat.leb_le in H2. lia.
Qed.

Lemma lobbyIdSchema_nil (p : list string) (s : string) :
  lobbyIdSchema p s = [] -> isValidLobbyId (VString s) = true.
Proof.
  unfold lobbyIdSchema, isValidLobbyId, test_repeat, test_plus. intros H.
  apply app_eq_nil in H as [H1 H2].
  apply check_nil in H1. apply check_nil, andb_true_iff in H2.
  cbn [typeof]. now rewrite H1, (proj2 H2).
Qed.

(** X25.  [kickPlayerSchema] never accepts a host who kicks themselves,
    nor [transferHostSchema] a transfer of the host to the current host; in
    what they accept, the lobby identifier is one that [isValidLobbyId]
    accepts and the two player identifiers have from 1 to 128
    characters. *)
Theorem kick_and_transfer_distinct (kick : KickPlayer) (transfer : TransferHost) :
  (kickPlayerSchema kick = [] ->
   kick_hostId kick <> targetPlayerId kick
   /\ isValidLobbyId (VString (kick_lobbyId kick)) = true
   /\ (1 <= String.length (kick_hostId kick) <= 128)%nat
   /\ (1 <= String.length (targetPlayerId kick) <= 128)%nat)
  /\ (transferHostSchema transfer = [] ->
      currentHostId transfer <> newHostId transfer
      /\ isValidLobbyId (VString (transfer_lobbyId transfer)) = true
      /\ (1 <= String.length (currentHostId transfer) <= 128)%nat
      /\ (1 <= String.length (newHostId transfer) <= 128)%nat).
Proof.
  assert (Hshape : forall lobbyId a b pa pb pr msg,
             (lobbyIdSchema ["lobbyId"%string] lobbyId
              ++ userIdSchema pa a ++ userIdSchema pb b)
             ++ check (negb (String.eqb a b)) pr msg = [] ->
             a <> b /\ isValidLobbyId (VString lobbyId) = true
             /\ (1 <= String.length a <= 128)%nat
             /\ (1 <= String.length b <= 128)%nat).
  { intros lobbyId a b pa pb pr msg H.
    apply app_eq_nil in H as [H Hrefine].
    apply app_eq_nil in H as [Hlobby H].
    apply app_eq_nil in H as [Ha Hb].
    apply check_nil, negb_true_iff in Hrefine.
    split; [intros ->; now rewrite String.eqb_refl in Hrefine|].
    split; [|split; eapply userIdSchema_nil; eassumption].
    eapply lobbyIdSchema_nil; exact Hlobby. }
  split; intros H; eapply Hshape; exact H.
Qed.

(** X26.  A submission that [submitAnswerSchema] accepts has a selected
    index that is an integer from 0 to 5, a response time that is a number
    from 0 to 300000, a game identifier that passes the identifier check, a
    question identifier that is not empty and a player identifier of 1 to
    128 characters. *)
Theorem submitAnswerSchema_ranges (is_uuid : string -> bool) (data : Submission) :
  submitAnswerSchema is_uuid data = [] ->
  (exists i, selectedIndex data =n= ofZ i /\ (0 <= i <= 5)%Z)
  /\ (exists r, responseTime data = Fin r /\ (0 <= r <= 300000)%Q)
  /\ is_uuid (sub_gameId data) = true
  /\ (1 <= String.length (sub_questionId data))%nat
  /\ (1 <= String.length (sub_playerId data) <= 128)%nat.
Proof.
  unfold submitAnswerSchema, gameIdSchema. intros H.
  apply app_eq_nil in H as [Hgame H].
  apply app_eq_nil in H as [Hquestion H].
  apply app_eq_nil in H as [Hplayer H].
  apply app_eq_nil in H as [Hindex Htime].
  split; [exact (z_number_int_range _ _ 0 5 _ _ _ Hindex)|].
  split.
  - apply z_number_nil in Htime. destruct Htime as [Hnan Htime].
    apply app_eq_nil in Htime as [Hmin Hmax].
    apply check_nil, negb_true_iff in Hmin. apply check_nil, negb_true_iff in Hmax.
    destruct (responseTime data) as [r| | |]; try discriminate.
    exists r. split; [reflexivity|].
    unfold gtb in Hmax. cbn [ltb] in Hmin, Hmax.
    apply negb_false_iff, Qle_bool_iff in Hmin.
    apply negb_false_iff, Qle_bool_iff in Hmax. split; assumption.
  - split; [now apply check_nil in Hgame|].
    split; [apply check_nil, Nat.leb_le in Hquestion; exact Hquestion|].
    eapply userIdSchema_nil; exact Hplayer.
Qed.

End SchemaFacts.

Lemma lobbySettingsSchema_ranges_witness :
  In "science"%string QUESTION_CATEGORIES
  /\ In "hard"%string DIFFICULTY_LEVELS
  /\ (exists t, ofZ 30 =n= ofZ t /\ (5 <= t <= 120)%Z)
  /\ (exists p, ofZ 100 =n= ofZ p /\ (1 <= p <= 1000)%Z)
  /\ (exists b, ofZ 50 =n= ofZ b /\ (0 <= b <= 200)%Z)
  /\ (forall n, @None number = Some n -> exists c, n =n= ofZ c /\ (1 <= c <= 50)%Z).
Proof.
  apply (@lobbySettingsSchema_ranges
           (mkLobbySettings "science" "hard" None (ofZ 30) None None (ofZ 100) (ofZ 50)
              None)).
  reflexivity.
Defined.

Lemma submitAnswerSchema_ranges_witness :
  (exists i, ofZ 2 =n= ofZ i /\ (0 <= i <= 5)%Z)
  /\ (exists r, Fin 1500 = Fin r /\ (0 <= r <= 300000)%Q)
  /\ true = true
  /\ (1 <= String.length "q1")%nat
  /\ (1 <= String.length "p1" <= 128)%nat.
Proof.
  apply (@submitAnswerSchema_ranges (fun _ => true)
           (mkSubmission "g" "q1" "p1" (ofZ 2) (Fin 1500))).
  reflexivity.
Defined.

Example kickPlayerSchema_self :
  kickPlayerSchema (mkKickPlayer "ABC123" "p1" "p1")
  = [mkIssue ["targetPlayerId"%string] (Some "Host cannot kick themselves"%string)].
Proof. vm_compute. reflexivity. Qed.
